(** * lnfi-batch-tool: the batch transfer pipeline of [App.tsx]

    A shallow embedding of [handleTransfer] and [transfer] (the task parser,
    the per-task loop, the message construction and the receipt export) and
    of the JavaScript built-ins they rest on ([String.prototype.split],
    [parseInt], [Array.prototype.includes], template-literal number
    formatting).

    Strings are Rocq [string]s holding the UTF-8 bytes of the JavaScript
    string.  The two separators the parser splits on (line feed and hyphen)
    and the digits and signs [parseInt] looks at are ASCII, and UTF-8 never
    uses an ASCII byte inside a multi-byte sequence, so splitting and
    number parsing on the bytes agree with the code-unit versions. *)

From Stdlib Require Import String Ascii List Bool ZArith NArith Lia.
From Stdlib Require Import DecimalString DecimalPos DecimalN.
Import ListNotations.
Local Open Scope string_scope.

(* ------------------------------------------------------------------ *)
(** ** JavaScript built-ins used by the pipeline *)

Module JS.

(** [s.split(sep)] for a one-character separator: the fields between the
    occurrences of [sep]; always at least one field. *)
Fixpoint split (sep : ascii) (s : string) : list string :=
  match s with
  | EmptyString => [EmptyString]
  | String c rest =>
      if Ascii.eqb c sep then EmptyString :: split sep rest
      else match split sep rest with
           | field :: fields => String c field :: fields
           | [] => [String c EmptyString]
           end
  end.

(** [xs.includes(x)] on an array of strings. *)
Definition includes (xs : list string) (x : string) : bool :=
  existsb (String.eqb x) xs.

(** A JavaScript Number as far as [parseInt] can produce one: NaN, an
    infinity, or a signed integer (sign and magnitude, so that -0 exists). *)
Inductive number : Type :=
| NaN
| Infinity (negative : bool)
| Finite (negative : bool) (magnitude : N).

(** Rounding of a non-negative integer to the nearest binary64 value,
    ties to even: integers below 2^53 are exact, larger ones keep their
    53 leading bits. *)
Definition round_to_double (m : N) : N :=
  if (m <? 2 ^ 53)%N then m
  else
    let k := (N.log2 m - 52)%N in
    let q := N.shiftr m k in
    let r := (m mod 2 ^ k)%N in
    let half := (2 ^ (k - 1))%N in
    let q' := if (half <? r)%N || ((r =? half)%N && N.odd q)
              then (q + 1)%N else q in
    N.shiftl q' k.

(** The Number value of [sign * m]; overflows to an infinity.  The
    language allows an engine to approximate a decimal text of more than
    20 significant digits; the rounding here is the exact one. *)
Definition to_Number (negative : bool) (m : N) : number :=
  let r := round_to_double m in
  if (2 ^ 1024 <=? r)%N then Infinity negative else Finite negative r.

Definition byte_in (lo hi : N) (c : ascii) : bool :=
  ((lo <=? N_of_ascii c) && (N_of_ascii c <=? hi))%N.

(** Removal of leading white space and line terminators (TrimString
    with "start"), on UTF-8: TAB, LF, VT, FF, CR, SP, U+00A0, U+1680,
    U+2000..U+200A, U+2028, U+2029, U+202F, U+205F, U+3000, U+FEFF. *)
Fixpoint trim_start (s : string) : string :=
  match s with
  | String c1 rest1 =>
      if byte_in 9 13 c1 || byte_in 32 32 c1 then trim_start rest1
      else
        match rest1 with
        | String c2 rest2 =>
            if byte_in 194 194 c1 && byte_in 160 160 c2 then trim_start rest2
            else
              match rest2 with
              | String c3 rest3 =>
                  if (byte_in 225 225 c1 && byte_in 154 154 c2 && byte_in 128 128 c3)
                     || (byte_in 226 226 c1 && byte_in 128 128 c2
                         && (byte_in 128 138 c3 || byte_in 168 169 c3 || byte_in 175 175 c3))
                     || (byte_in 226 226 c1 && byte_in 129 129 c2 && byte_in 159 159 c3)
                     || (byte_in 227 227 c1 && byte_in 128 128 c2 && byte_in 128 128 c3)
                     || (byte_in 239 239 c1 && byte_in 187 187 c2 && byte_in 191 191 c3)
                  then trim_start rest3
                  else s
              | EmptyString => s
              end
        | EmptyString => s
        end
  | EmptyString => s
  end.

(** The value of [c] as a digit, when it is one in radix [radix]. *)
Definition digit_value (radix : N) (c : ascii) : option N :=
  let n := N_of_ascii c in
  let v := if byte_in 48 57 c then Some (n - 48)%N
           else if byte_in 97 122 c then Some (n - 87)%N
           else if byte_in 65 90 c then Some (n - 55)%N
           else None in
  match v with
  | Some d => if (d <? radix)%N then Some d else None
  | None => None
  end.

(** The longest prefix of [s] made of radix-[radix] digits. *)
Fixpoint digits_prefix (radix : N) (s : string) : list N :=
  match s with
  | String c rest =>
      match digit_value radix c with
      | Some d => d :: digits_prefix radix rest
      | None => []
      end
  | EmptyString => []
  end.

Definition mathInt (radix : N) (digits : list N) : N :=
  fold_left (fun acc d => (acc * radix + d)%N) digits 0%N.

(** Steps 3-4 of [parseInt]: an optional sign. *)
Definition strip_sign (s : string) : bool * string :=
  match s with
  | String "-"%char rest => (true, rest)
  | String "+"%char rest => (false, rest)
  | _ => (false, s)
  end.

(** Steps 5-6 with no radix argument: radix 16 after 0x or 0X, else 10. *)
Definition strip_prefix (s : string) : N * string :=
  match s with
  | String "0"%char (String "x"%char rest) => (16%N, rest)
  | String "0"%char (String "X"%char rest) => (16%N, rest)
  | _ => (10%N, s)
  end.

(** [parseInt(string)] with no radix argument, on a string. *)
Definition parseInt_string (inputString : string) : number :=
  let '(negative, unsigned) := strip_sign (trim_start inputString) in
  let '(radix, body) := strip_prefix unsigned in
  match digits_prefix radix body with
  | [] => NaN
  | digits => to_Number negative (mathInt radix digits)
  end.

(** [parseInt(x)] where [x] is a string or [undefined]; the argument is
    first converted to a string, [undefined] becoming "undefined". *)
Definition parseInt (x : option string) : number :=
  match x with
  | Some s => parseInt_string s
  | None => parseInt_string "undefined"
  end.

Definition decimal (n : N) : string :=
  NilZero.string_of_uint (N.to_uint n).

(** [`${x}`]: Number::toString in radix 10.  Integers below 2^53 print
    as their decimal digits.  [large_digits] is the engine's shortest
    round-trip digit generation for the magnitudes from 2^53 up (the
    result there has trailing zeros or an exponent). *)
Definition Number_toString (large_digits : N -> string) (x : number) : string :=
  match x with
  | NaN => "NaN"
  | Infinity negative => if negative then "-Infinity" else "Infinity"
  | Finite negative m =>
      if (m =? 0)%N then "0"
      else (if negative then "-" else "")
             ++ (if (m <? 2 ^ 53)%N then decimal m else large_digits m)
  end.

(** [s.slice(n)] for [n] within the text. *)
Fixpoint drop (n : nat) (s : string) : string :=
  match n, s with
  | O, _ => s
  | S n', String _ rest => drop n' rest
  | S _, EmptyString => EmptyString
  end.

(** [s.replace(searchString, replaceValue)] for a text pattern and a
    replacement with no [$] in it: the first occurrence is replaced. *)
Fixpoint replace (searchString replaceValue s : string) : string :=
  if String.prefix searchString s
  then replaceValue ++ drop (String.length searchString) s
  else match s with
       | EmptyString => EmptyString
       | String c rest => String c (replace searchString replaceValue rest)
       end.

End JS.

(* ------------------------------------------------------------------ *)
(** ** Data model *)

Definition Uint8Array := list Byte.byte.

(** [type Wallet]. *)
Record Wallet : Type := mkWallet {
  nsec : string;
  npub : string;
  privateKey : Uint8Array
}.

(** [type Task].  The declared type of [token] is the union of the five
    supported names, but the parser only casts: at run time the field
    holds whatever string the line carried, upper-cased. *)
Record Task : Type := mkTask {
  address : string;
  amount : JS.number;
  token : string
}.

(** An optional property of an object: not there, there with the value
    [undefined], or there with a value.  [JSON.stringify] writes only the
    last kind. *)
Inductive property (A : Type) : Type :=
| Absent
| Undefined
| Present (a : A).
Arguments Absent {A}.
Arguments Undefined {A}.
Arguments Present {A} a.

(** [type Receipt = Task & { eventId?: string; error?: string }]. *)
Record Receipt : Type := mkReceipt {
  task : Task;
  eventId : property string;
  error : property string
}.

Definition written {A : Type} (p : property A) : bool :=
  match p with
  | Present _ => true
  | _ => false
  end.

(** The argument and the result of nostr-tools' [finalizeEvent]. *)
Record EventTemplate : Type := mkTemplate {
  content : string;
  tags : list (list string);
  kind : Z;
  created_at : Z
}.

Record VerifiedEvent : Type := mkEvent {
  template : EventTemplate;
  pubkey : string;
  id : string;
  sig : string
}.

(** [relay: Relay | null]; a handle is made by [new Relay(url)]. *)
Inductive Relay : Type :=
| RelayHandle (url : string).

(** What a [throw] or a rejected promise carries. *)
Inductive exn : Type :=
| TypeError (message : string)
| Rejection (reason : string).

(** The error of [token.toUpperCase()] when [token] is [undefined]. *)
Definition undefined_token : exn :=
  TypeError "Cannot read properties of undefined (reading 'toUpperCase')".

(** ** Effects

    The calls the pipeline makes on its surroundings, in the order they
    are made.  A run is described by the log it leaves. *)
Inductive Action : Type :=
| setLoading (b : bool)
| toast_error (message : string)
| toast_success (message : string)
| console_error (label : string) (e : exn)
| relay_connect (rejected : option exn)
| relay_publish (event : VerifiedEvent) (rejected : option exn)
| download (name : string) (receipts : list Receipt).

Definition Log := list Action.

(** The answers of the surroundings.  Each may depend on everything that
    has happened in the run so far: the relay may drop or come back, a call
    may reject, the clock advances and the cipher draws a fresh vector. *)
Record Env : Type := mkEnv {
  relay_connected : Log -> bool;
  connect_rejects : Log -> option exn;
  publish_rejects : Log -> VerifiedEvent -> option exn;
  Date_now : Log -> Z;
  nip04_encrypt : Log -> Uint8Array -> string -> string -> string
}.

Inductive outcome (A : Type) : Type :=
| Return (a : A)
| Throw (e : exn).
Arguments Return {A} a.
Arguments Throw {A} e.

(** Computations that log their actions and may throw. *)
Definition M (A : Type) : Type := Log -> outcome A * Log.

Definition ret {A : Type} (a : A) : M A := fun log => (Return a, log).

Definition throw {A : Type} (e : exn) : M A := fun log => (Throw e, log).

Definition bind {A B : Type} (m : M A) (k : A -> M B) : M B :=
  fun log =>
    match m log with
    | (Return a, log') => k a log'
    | (Throw e, log') => (Throw e, log')
    end.

Definition act (a : Action) : M unit := fun log => (Return tt, (log ++ [a])%list).

Definition history : M Log := fun log => (Return log, log).

Definition lift {A : Type} (o : outcome A) : M A := fun log => (o, log).

(** [try { body } catch (e) { handler e } finally { cleanup }] where
    neither the handler nor the cleanup throws on its own account. *)
Definition try_catch_finally {A : Type}
  (body : M A) (handler : exn -> M A) (cleanup : M unit) : M A :=
  fun log =>
    match body log with
    | (Return a, log') => bind cleanup (fun _ => ret a) log'
    | (Throw e, log') => bind (handler e) (fun a => bind cleanup (fun _ => ret a)) log'
    end.

Declare Scope js_scope.
Delimit Scope js_scope with js.
Notation "x <- m ;; k" := (bind m (fun x => k))
  (at level 61, m at next level, right associativity) : js_scope.
Notation "m ;; k" := (bind m (fun _ => k))
  (at level 61, right associativity) : js_scope.

Definition SUPPORTED_TOKENS : list string :=
  ["SATS"; "TREAT"; "TRICK"; "NOSTR"; "TNA"].

Definition LNFI_RELAY : string := "wss://relay.lnfi.network".

(** ** Sample surroundings, for running the component on concrete inputs *)

Definition ascii_upper (c : ascii) : ascii :=
  if JS.byte_in 97 122 c then ascii_of_N (N_of_ascii c - 32) else c.

(** [toUpperCase] on ASCII text. *)
Fixpoint ascii_toUpperCase (s : string) : string :=
  match s with
  | EmptyString => EmptyString
  | String c rest => String (ascii_upper c) (ascii_toUpperCase rest)
  end.

Definition sample_digits (n : N) : string := JS.decimal n.

(** The key that the fixed npub encodes. *)
Definition sample_nip19_decode_data (_ : string) : string :=
  "693d3f45b81c1f3557383fb955f3a8cb2c194c44ffba1e2f4566e678773b44f8".

Definition sample_finalizeEvent (t : EventTemplate) (_ : Uint8Array) : VerifiedEvent :=
  {| template := t; pubkey := "sample-pubkey"; id := "id:" ++ content t; sig := "sample-sig" |}.

(** Surroundings that always answer the same way. *)
Definition sample_env (connected : bool) (connect_fails publish_fails : option exn) : Env :=
  {| relay_connected := fun _ => connected;
     connect_rejects := fun _ => connect_fails;
     publish_rejects := fun _ _ => publish_fails;
     Date_now := fun _ => 1700000000123%Z;
     nip04_encrypt := fun _ _ _ msg => "enc:" ++ msg |}.

Definition sample_wallet : Wallet :=
  {| nsec := "nsec1sample"; npub := "npub1sample"; privateKey := [Byte.x01] |}.

Definition sample_relay : Relay := RelayHandle LNFI_RELAY.

Definition LF : ascii := ascii_of_nat 10.

(** Two lines, the second with a token outside the supported set. *)
Definition sample_tasks : string :=
  "npub1xyz-TREAT-100" ++ String LF "npub1abc-FOO-50".

Definition sample_task_1 : Task :=
  {| address := "npub1xyz"; amount := JS.Finite false 100; token := "TREAT" |}.

Definition sample_task_2 : Task :=
  {| address := "npub1abc"; amount := JS.Finite false 50; token := "FOO" |}.

(** The event of the first sample line under the sample surroundings. *)
Definition sample_event : VerifiedEvent :=
  sample_finalizeEvent
    {| content := "enc:transfer 100 TREAT to npub1xyz";
       tags := [["p"; "693d3f45b81c1f3557383fb955f3a8cb2c194c44ffba1e2f4566e678773b44f8"];
                ["r"; "json"]];
       kind := 4;
       created_at := 1700000000 |}
    [Byte.x01].

(** Sample wallet libraries: a node is the path that leads to it. *)
Definition sample_validateMnemonic (mnemonic : string) : bool :=
  String.prefix "abandon " mnemonic.

Definition sample_mnemonicToSeedSync (_ : string) : outcome Uint8Array :=
  Return [Byte.x02].

Definition sample_fromSeed (_ : Uint8Array) : outcome string := Return "m".

Definition sample_derivePath (_ path : string) : outcome string := Return path.

Definition sample_node_privateKey (_ : string) : Uint8Array := [Byte.x01].

Definition sample_nsecEncode (_ : Uint8Array) : outcome string := Return "nsec1sample".

Definition sample_getPublicKey (_ : Uint8Array) : outcome string := Return "sample-pubkey".

Definition sample_npubEncode (_ : string) : outcome string := Return "npub1sample".

(* ------------------------------------------------------------------ *)
(** ** The component *)

Section App.

(** Library functions the component calls and this file does not
    reimplement. *)
Variable toUpperCase : string -> string.      (* String.prototype.toUpperCase *)
Variable large_digits : N -> string.          (* see [JS.Number_toString] *)
Variable nip19_decode_data : string -> string.
Variable finalizeEvent : EventTemplate -> Uint8Array -> VerifiedEvent.

Variable env : Env.

(** The wallet libraries (bip39, bip32, nostr-tools), each call returning
    or throwing.  [fromSeed] is [bip32.fromSeed] on the bitcoin network;
    [node_privateKey] reads [child.privateKey!]. *)
Variable BIP32Node : Type.
Variable validateMnemonic : string -> bool.
Variable mnemonicToSeedSync : string -> outcome Uint8Array.
Variable fromSeed : Uint8Array -> outcome BIP32Node.
Variable derivePath : BIP32Node -> string -> outcome BIP32Node.
Variable node_privateKey : BIP32Node -> Uint8Array.
Variable nsecEncode : Uint8Array -> outcome string.
Variable getPublicKey : Uint8Array -> outcome string.
Variable npubEncode : string -> outcome string.

Definition LNFI_SEND_ADDR : string :=
  nip19_decode_data "npub1dy7n73dcrs0n24ec87u4tuagevkpjnzyl7aput69vmn8saemgnuq0a4n6y".

Local Open Scope js_scope.

(** [await relay.connect()]. *)
Definition connect (r : Relay) : M unit :=
  log <- history ;;
  match connect_rejects env log with
  | None => act (relay_connect None)
  | Some e => act (relay_connect (Some e)) ;; throw e
  end.

(** [await relay.publish(event)]. *)
Definition publish (r : Relay) (event : VerifiedEvent) : M unit :=
  log <- history ;;
  match publish_rejects env log event with
  | None => act (relay_publish event None)
  | Some e => act (relay_publish event (Some e)) ;; throw e
  end.

(** The plaintext [`transfer ${amount} ${token} to ${receiver}`]. *)
Definition transfer_message (token : string) (amount : JS.number) (receiver : string) : string :=
  "transfer " ++ JS.Number_toString large_digits amount ++ " " ++ token ++ " to " ++ receiver.

(** [transfer]: the result is the event id, or [undefined] when there is
    no relay handle. *)
Definition transfer (relay : option Relay)
  (token : string) (amount : JS.number) (receiver : string) (privateKey : Uint8Array)
  : M (option string) :=
  match relay with
  | None =>
      act (toast_error "请先连接 relay") ;;
      ret None
  | Some r =>
      log <- history ;;
      (if negb (relay_connected env log) then connect r else ret tt) ;;
      let msg := transfer_message token amount receiver in
      log <- history ;;
      let content := nip04_encrypt env log privateKey LNFI_SEND_ADDR msg in
      let tags := [["p"; LNFI_SEND_ADDR]; ["r"; "json"]] in
      let event :=
        finalizeEvent
          {| content := content;
             tags := tags;
             kind := 4;
             created_at := (Date_now env log / 1000)%Z |}
          privateKey in
      publish r event ;;
      ret (Some (id event))
  end.

(** The callback of [tasks.split('\n').map(...)]: a line with no hyphen
    leaves [token] undefined, and [token.toUpperCase()] throws. *)
Definition parse_line (line : string) : outcome Task :=
  match JS.split "-" line with
  | address :: token :: rest =>
      Return {| address := address;
                amount := JS.parseInt (hd_error rest);
                token := toUpperCase token |}
  | _ => Throw undefined_token
  end.

(** [lines.map(parse_line)]: the first throw ends the map. *)
Fixpoint map_lines (lines : list string) : outcome (list Task) :=
  match lines with
  | [] => Return []
  | line :: rest =>
      match parse_line line with
      | Throw e => Throw e
      | Return t =>
          match map_lines rest with
          | Throw e => Throw e
          | Return ts => Return (t :: ts)
          end
      end
  end.

Definition parse_tasks (tasks : string) : outcome (list Task) :=
  map_lines (JS.split LF tasks).

(** [eventId] as the object literal [{ ...task, eventId }] stores it. *)
Definition property_of (x : option string) : property string :=
  match x with
  | Some s => Present s
  | None => Undefined
  end.

(** The body of [for (const task of parsedTasks)], with the receipts
    pushed so far. *)
Fixpoint for_tasks (relay : option Relay) (wallet : Wallet)
  (parsedTasks : list Task) (receipts : list Receipt) : M (list Receipt) :=
  match parsedTasks with
  | [] => ret receipts
  | t :: rest =>
      if negb (JS.includes SUPPORTED_TOKENS (token t)) then
        for_tasks relay wallet rest
          ((receipts ++ [{| task := t; eventId := Absent; error := Present "不支持的币种" |}])%list)
      else
        eventId <- transfer relay (token t) (amount t) (address t) (privateKey wallet) ;;
        for_tasks relay wallet rest
          ((receipts ++ [{| task := t; eventId := property_of eventId; error := Absent |}])%list)
  end.

(** The end of [handleTransfer]: the receipts go into a JSON blob offered
    as [receipts.json]; the log keeps the array that is serialised. *)
Definition export_receipts (receipts : list Receipt) : M unit :=
  act (download "receipts.json" receipts) ;;
  act (setLoading false) ;;
  act (toast_success "转账成功，交易收据已下载").

(** [handleTransfer], from the click to the download. *)
Definition handleTransfer (relay : option Relay) (wallet : option Wallet) (tasks : string)
  : M unit :=
  match wallet with
  | None => act (toast_error "请先加载钱包")
  | Some w =>
      if String.eqb (nsec w) "" then act (toast_error "请先加载钱包")
      else
        act (setLoading true) ;;
        parsedTasks <-
          try_catch_finally
            (lift (parse_tasks tasks))
            (fun e =>
               act (console_error "Parse tasks error: " e) ;;
               act (toast_error "转账地址格式错误") ;;
               ret [])
            (act (setLoading false)) ;;
        match parsedTasks with
        | [] => ret tt
        | _ =>
            receipts <- for_tasks relay w parsedTasks [] ;;
            export_receipts receipts
        end
  end.

(** [handleConnectRelay]: the result is the relay state afterwards, the
    one given unless [setRelay] is reached. *)
Definition handleConnectRelay (relay : option Relay) : M (option Relay) :=
  log <- history ;;
  if match relay with
     | Some _ => relay_connected env log
     | None => false
     end
  then ret relay
  else
    let _relay := RelayHandle LNFI_RELAY in
    try_catch_finally
      (connect _relay ;;
       ret (Some _relay))
      (fun e =>
         act (console_error "Connect relay error: " e) ;;
         act (toast_error "连接 relay 失败") ;;
         ret relay)
      (ret tt).

Definition DERIVE_PATH : string := "m/44'/1237'/index'/0/0".

(** [handleLoadWallet]: the result is the wallet state afterwards, the one
    given unless [setWallet] is reached. *)
Definition handleLoadWallet (mnemonic : string) (wallet : option Wallet) : M (option Wallet) :=
  if String.eqb mnemonic "" then ret wallet
  else if negb (validateMnemonic mnemonic) then
    act (toast_error "无效的助记词") ;;
    ret wallet
  else
    try_catch_finally
      (seed <- lift (mnemonicToSeedSync mnemonic) ;;
       root <- lift (fromSeed seed) ;;
       child <- lift (derivePath root (JS.replace "index" "0" DERIVE_PATH)) ;;
       let privateKey := node_privateKey child in
       act (toast_success "钱包加载成功") ;;
       nsec <- lift (nsecEncode privateKey) ;;
       pub <- lift (getPublicKey privateKey) ;;
       npub <- lift (npubEncode pub) ;;
       ret (Some {| nsec := nsec; npub := npub; privateKey := privateKey |}))
      (fun e =>
         act (console_error "Load wallet error: " e) ;;
         act (toast_error "加载钱包失败") ;;
         ret wallet)
      (ret tt).

(** The application from its mount to one click on the transfer button:
    the mount effect calls [handleConnectRelay] on the initial state (no
    handle), the user loads a wallet from a mnemonic, then starts a batch;
    each handler sees the state the ones before it left. *)
Definition session (mnemonic tasks : string) : M unit :=
  relay <- handleConnectRelay None ;;
  wallet <- handleLoadWallet mnemonic None ;;
  handleTransfer relay wallet tasks.

(* ---------------------------------------------------------------- *)
(** *** Vocabulary of the statements *)

Definition supported (t : Task) : bool := JS.includes SUPPORTED_TOKENS (token t).

(** The receipt the loop pushes for an unsupported token. *)
Definition rejected_receipt (t : Task) : Receipt :=
  {| task := t; eventId := Absent; error := Present "不支持的币种" |}.

Definition is_download (a : Action) : bool :=
  match a with
  | download _ _ => true
  | _ => false
  end.

(** Identifiers of the events whose publish resolved, in log order. *)
Definition published_ids (log : Log) : list string :=
  flat_map (fun a => match a with
                     | relay_publish event None => [id event]
                     | _ => []
                     end) log.

(** Identifiers written in the receipts, in receipt order. *)
Definition receipt_ids (receipts : list Receipt) : list string :=
  flat_map (fun r => match eventId r with
                     | Present i => [i]
                     | _ => []
                     end) receipts.

(** A receipt as [JSON.stringify] writes it has exactly one of the two
    optional fields. *)
Definition exactly_one_outcome (r : Receipt) : bool :=
  xorb (written (eventId r)) (written (error r)).

(** A receipt with its outcome: an event id that is not empty and no
    error, or an error and no event id. *)
Definition settled (r : Receipt) : Prop :=
  match eventId r, error r with
  | Present i, Absent => i <> ""
  | Absent, Present _ => True
  | _, _ => False
  end.

(** The log when [transfer] reaches its encryption: as it was, or with
    the connect that resolved. *)
Definition after_connect (log : Log) : Log :=
  if relay_connected env log then log else (log ++ [relay_connect None])%list.

(** A stretch of log with no export in it. *)
Definition quiet (mid : Log) : Prop := Forall (fun a => is_download a = false) mid.

(** **** The task text format, in the words of the specification *)

Definition is_digit (c : ascii) : bool := JS.byte_in 48 57 c.

Fixpoint all_digits (s : string) : bool :=
  match s with
  | EmptyString => true
  | String c rest => is_digit c && all_digits rest
  end.

(** A base-10 integer literal: one or more decimal digits. *)
Definition spec_decimal_literal (s : string) : bool :=
  match s with
  | EmptyString => false
  | _ => all_digits s
  end.

Fixpoint spec_decimal_from (acc : N) (s : string) : N :=
  match s with
  | EmptyString => acc
  | String c rest => spec_decimal_from (acc * 10 + (N_of_ascii c - 48))%N rest
  end.

(** The integer a base-10 literal denotes. *)
Definition spec_decimal_value (s : string) : N := spec_decimal_from 0 s.

Definition field (i : nat) (line : string) : string :=
  nth i (JS.split "-" line) "".

(** [address-tokenKind-amount]: exactly three fields, the third a base-10
    integer literal. *)
Definition spec_well_formed (line : string) : bool :=
  match JS.split "-" line with
  | [_; _; m] => spec_decimal_literal m
  | _ => false
  end.

(** The task the specification reads off a well-formed line. *)
Definition spec_task_of_line (line : string) : Task :=
  {| address := field 0 line;
     amount := JS.to_Number false (spec_decimal_value (field 2 line));
     token := toUpperCase (field 1 line) |}.

(** Whether the character [c] occurs in [s]. *)
Fixpoint occurs (c : ascii) (s : string) : bool :=
  match s with
  | EmptyString => false
  | String c' rest => Ascii.eqb c' c || occurs c rest
  end.

(** The digits [parseInt] reads from its argument: what is left of the
    text after leading white space, an optional sign and an optional 0x
    prefix, up to the first character that is not a digit of the radix. *)
Definition leading_digits (x : option string) : list N :=
  let s := match x with Some s => s | None => "undefined" end in
  let '(_, unsigned) := JS.strip_sign (JS.trim_start s) in
  let '(radix, body) := JS.strip_prefix unsigned in
  JS.digits_prefix radix body.

(** **** Statements that are tested against the code below *)

(** Connect first, and nothing else when the connect fails: with the
    relay down and every connect rejected with [e], the run ends in [e]
    and exports nothing. *)
Definition connect_before_any_task (relay : option Relay) (w : Wallet) (tasks : string) : Prop :=
  forall e,
    (forall log, relay_connected env log = false) ->
    (forall log, connect_rejects env log = Some e) ->
    fst (handleTransfer relay (Some w) tasks []) = Throw e
    /\ forall name receipts,
         ~ In (download name receipts) (snd (handleTransfer relay (Some w) tasks [])).

(** One exported receipt per parsed task whenever parsing succeeds. *)
Definition receipt_per_parsed_task (relay : option Relay) (w : Wallet) (tasks : string) : Prop :=
  forall parsedTasks,
    parse_tasks tasks = Return parsedTasks ->
    exists receipts,
      In (download "receipts.json" receipts) (snd (handleTransfer relay (Some w) tasks []))
      /\ map task receipts = parsedTasks.

(** A third field that is not a base-10 literal gives the amount NaN. *)
Definition malformed_amount_is_NaN (line : string) : Prop :=
  forall a t m rest,
    JS.split "-" line = a :: t :: m :: rest ->
    spec_decimal_literal m = false ->
    exists parsed, parse_line line = Return parsed /\ amount parsed = JS.NaN.

(** Every exported receipt has exactly one of [eventId] and [error]. *)
Definition receipts_have_one_outcome (relay : option Relay) (w : Wallet) (tasks : string) : Prop :=
  forall name receipts r,
    In (download name receipts) (snd (handleTransfer relay (Some w) tasks [])) ->
    In r receipts ->
    exactly_one_outcome r = true.

(** **** Further vocabulary *)

(** How many times the character [c] occurs in [s]. *)
Fixpoint count_char (c : ascii) (s : string) : nat :=
  match s with
  | EmptyString => O
  | String c' rest => if Ascii.eqb c' c then S (count_char c rest) else count_char c rest
  end.

Definition is_connect (a : Action) : bool :=
  match a with
  | relay_connect _ => true
  | _ => false
  end.

Definition is_publish (a : Action) : bool :=
  match a with
  | relay_publish _ _ => true
  | _ => false
  end.

(** Calls on the relay. *)
Definition is_relay_call (a : Action) : bool := is_connect a || is_publish a.

(** Calls on the relay that were rejected. *)
Definition is_rejected_call (a : Action) : bool :=
  match a with
  | relay_connect (Some _) | relay_publish _ (Some _) => true
  | _ => false
  end.

Definition is_setLoading (a : Action) : bool :=
  match a with
  | setLoading _ => true
  | _ => false
  end.

(** The receipt the loop pushes when [transfer] returned [undefined]. *)
Definition empty_receipt (t : Task) : Receipt :=
  {| task := t; eventId := Undefined; error := Absent |}.

(** The event [transfer] builds for a task when its log is [log]. *)
Definition event_of_task (w : Wallet) (t : Task) (log : Log) : VerifiedEvent :=
  finalizeEvent
    {| content := nip04_encrypt env log (privateKey w) LNFI_SEND_ADDR
                    (transfer_message (token t) (amount t) (address t));
       tags := [["p"; LNFI_SEND_ADDR]; ["r"; "json"]];
       kind := 4;
       created_at := (Date_now env log / 1000)%Z |}
    (privateKey w).

(** What the loop can add to the log: a call on the relay, or the toast
    of [transfer] when there is no relay handle. *)
Definition is_loop_action (a : Action) : bool :=
  match a with
  | relay_connect _ | relay_publish _ _ => true
  | toast_error message => String.eqb message "请先连接 relay"
  | _ => false
  end.

(** The receipt of a task when there is no relay handle. *)
Definition receipt_without_relay (t : Task) : Receipt :=
  if supported t then empty_receipt t else rejected_receipt t.

(** What one turn of the loop adds to the log for the task [t] when the
    log is [log], and whether the turn ends the loop by throwing. *)
Inductive turn (relay : option Relay) (w : Wallet) (t : Task) (log : Log)
  : bool -> Log -> Prop :=
| turn_unsupported :
    supported t = false ->
    turn relay w t log false []
| turn_no_relay :
    supported t = true -> relay = None ->
    turn relay w t log false [toast_error "请先连接 relay"]
| turn_connect_rejected (e : exn) :
    supported t = true -> relay <> None ->
    turn relay w t log true [relay_connect (Some e)]
| turn_published (pre : Log) :
    supported t = true -> relay <> None ->
    pre = [] \/ pre = [relay_connect None] ->
    turn relay w t log false
      (pre ++ [relay_publish (event_of_task w t (log ++ pre)%list) None])%list
| turn_publish_rejected (pre : Log) (e : exn) :
    supported t = true -> relay <> None ->
    pre = [] \/ pre = [relay_connect None] ->
    turn relay w t log true
      (pre ++ [relay_publish (event_of_task w t (log ++ pre)%list) (Some e)])%list.

(** What the loop over [ts] adds to the log [log]: the turns of the tasks
    one after the other, up to the first that throws. *)
Inductive turns (relay : option Relay) (w : Wallet)
  : list Task -> Log -> bool -> Log -> Prop :=
| turns_done (log : Log) :
    turns relay w [] log false []
| turns_next (t : Task) (ts : list Task) (log seg mid : Log) (aborted : bool) :
    turn relay w t log false seg ->
    turns relay w ts (log ++ seg)%list aborted mid ->
    turns relay w (t :: ts) log aborted (seg ++ mid)%list
| turns_abort (t : Task) (ts : list Task) (log seg : Log) :
    turn relay w t log true seg ->
    turns relay w (t :: ts) log true seg.

Definition throws {A : Type} (o : outcome A) : bool :=
  match o with
  | Return _ => false
  | Throw _ => true
  end.

(** A number that is not below zero: NaN, +0 or above, +Infinity. *)
Definition unsigned_number (x : JS.number) : bool :=
  match x with
  | JS.NaN => true
  | JS.Infinity negative => negb negative
  | JS.Finite negative _ => negb negative
  end.

(* ---------------------------------------------------------------- *)
(** *** Built-ins *)

Lemma split_not_nil (sep : ascii) (s : string) : JS.split sep s <> [].
Proof.
  destruct s as [|c rest]; simpl; [discriminate|].
  destruct (Ascii.eqb c sep); [discriminate|].
  destruct (JS.split sep rest); discriminate.
Qed.

Lemma is_digit_bounds (c : ascii) :
  is_digit c = true -> (48 <= N_of_ascii c <= 57)%N.
Proof.
  unfold is_digit, JS.byte_in. rewrite andb_true_iff, !N.leb_le. intros H. exact H.
Qed.

Lemma byte_in_outside (lo hi : N) (c : ascii) :
  (N_of_ascii c < lo \/ hi < N_of_ascii c)%N -> JS.byte_in lo hi c = false.
Proof.
  intros H. unfold JS.byte_in. rewrite andb_false_iff, !N.leb_gt.
  destruct H as [H|H]; [left | right]; exact H.
Qed.

Lemma trim_start_digit (c : ascii) (rest : string) :
  is_digit c = true -> JS.trim_start (String c rest) = String c rest.
Proof.
  intros H. apply is_digit_bounds in H.
  cbn [JS.trim_start].
  rewrite !(byte_in_outside 9 13 c), !(byte_in_outside 32 32 c),
    !(byte_in_outside 194 194 c), !(byte_in_outside 225 225 c),
    !(byte_in_outside 226 226 c), !(byte_in_outside 227 227 c),
    !(byte_in_outside 239 239 c) by lia.
  cbn [orb andb].
  destruct rest as [|c2 [|c3 rest3]]; reflexivity.
Qed.

Lemma strip_sign_digit (c : ascii) (rest : string) :
  is_digit c = true -> JS.strip_sign (String c rest) = (false, String c rest).
Proof.
  destruct c as [[] [] [] [] [] [] [] []]; intros H; try discriminate H; reflexivity.
Qed.

Lemma strip_prefix_digits (s : string) :
  all_digits s = true -> JS.strip_prefix s = (10%N, s).
Proof.
  destruct s as [|c1 [|c2 rest]]; try reflexivity.
  - intros _. destruct c1 as [[] [] [] [] [] [] [] []]; reflexivity.
  - cbn [all_digits]. rewrite !andb_true_iff. intros (_ & H2 & _).
    destruct c2 as [[] [] [] [] [] [] [] []]; try discriminate H2;
      destruct c1 as [[] [] [] [] [] [] [] []]; reflexivity.
Qed.

Lemma digit_value_decimal (c : ascii) :
  is_digit c = true -> JS.digit_value 10 c = Some (N_of_ascii c - 48)%N.
Proof.
  intros H. unfold JS.digit_value. fold (is_digit c). rewrite H.
  apply is_digit_bounds in H.
  destruct (N.ltb_spec (N_of_ascii c - 48) 10); [reflexivity | lia].
Qed.

Lemma digits_prefix_all_digits (s : string) (acc : N) :
  all_digits s = true ->
  fold_left (fun a d => (a * 10 + d)%N) (JS.digits_prefix 10 s) acc = spec_decimal_from acc s.
Proof.
  revert acc. induction s as [|c rest IH]; intros acc H; [reflexivity|].
  cbn [all_digits] in H. apply andb_true_iff in H as [Hc Hrest].
  cbn [JS.digits_prefix spec_decimal_from]. rewrite (digit_value_decimal c Hc).
  cbn [fold_left]. apply IH, Hrest.
Qed.

Lemma to_Number_safe (negative : bool) (m : N) :
  (m < 2 ^ 53)%N -> JS.to_Number negative m = JS.Finite negative m.
Proof.
  intros H. unfold JS.to_Number, JS.round_to_double.
  apply N.ltb_lt in H as H'. rewrite H'.
  assert (2 ^ 53 < 2 ^ 1024)%N as Hp by (apply N.pow_lt_mono_r; lia).
  destruct (N.leb_spec (2 ^ 1024) m); [lia | reflexivity].
Qed.

(** [parseInt] on a base-10 literal is the literal's value as a Number. *)
Lemma parseInt_decimal_literal (s : string) :
  spec_decimal_literal s = true ->
  JS.parseInt (Some s) = JS.to_Number false (spec_decimal_value s).
Proof.
  destruct s as [|c rest]; [discriminate|].
  intros H. cbn [spec_decimal_literal] in H.
  assert (is_digit c = true) as Hc
      by (cbn [all_digits] in H; apply andb_true_iff in H; apply H).
  unfold JS.parseInt, JS.parseInt_string.
  rewrite (trim_start_digit c rest Hc), (strip_sign_digit c rest Hc),
    (strip_prefix_digits _ H).
  pose proof (digits_prefix_all_digits (String c rest) 0 H) as Hv.
  cbn [JS.digits_prefix] in Hv |- *. rewrite (digit_value_decimal c Hc) in Hv |- *.
  unfold JS.mathInt, spec_decimal_value. rewrite Hv. reflexivity.
Qed.

(* ---------------------------------------------------------------- *)
(** *** The parser *)

Lemma parse_line_fields (line a t : string) (rest : list string) :
  JS.split "-" line = a :: t :: rest ->
  parse_line line =
    Return {| address := a; amount := JS.parseInt (hd_error rest); token := toUpperCase t |}.
Proof. intros H. unfold parse_line. rewrite H. reflexivity. Qed.

Lemma parse_line_one_field (line a : string) :
  JS.split "-" line = [a] -> parse_line line = Throw undefined_token.
Proof. intros H. unfold parse_line. rewrite H. reflexivity. Qed.

Lemma parse_line_Throw (line : string) (e : exn) :
  parse_line line = Throw e -> e = undefined_token.
Proof.
  unfold parse_line. destruct (JS.split "-" line) as [|a [|t rest]]; congruence.
Qed.

Lemma split_without_separator (sep : ascii) (s : string) :
  occurs sep s = false -> JS.split sep s = [s].
Proof.
  induction s as [|c rest IH]; intros H; [reflexivity|].
  cbn [occurs] in H. apply orb_false_iff in H as [Hc Hrest].
  cbn [JS.split]. rewrite Hc, (IH Hrest). reflexivity.
Qed.

Lemma split_with_separator (sep : ascii) (s : string) :
  occurs sep s = true -> exists a t rest, JS.split sep s = a :: t :: rest.
Proof.
  induction s as [|c s' IH]; intros H; [discriminate|].
  cbn [occurs] in H. cbn [JS.split].
  destruct (Ascii.eqb c sep).
  - pose proof (split_not_nil sep s') as Hne.
    destruct (JS.split sep s') as [|t rest]; [congruence|].
    exists EmptyString, t, rest. reflexivity.
  - destruct (IH H) as (a & t & rest & ->).
    exists (String c a), t, rest. reflexivity.
Qed.

(** The mapping throws exactly on the lines with no hyphen. *)
Lemma parse_line_throws_iff_no_hyphen (line : string) :
  parse_line line = Throw undefined_token <-> occurs "-" line = false.
Proof.
  split.
  - intros H. destruct (occurs "-" line) eqn:Ho; [|reflexivity].
    destruct (split_with_separator "-" line Ho) as (a & t & rest & Hs).
    rewrite (parse_line_fields line a t rest Hs) in H. discriminate H.
  - intros H. apply (parse_line_one_field line line).
    apply split_without_separator, H.
Qed.

Lemma map_lines_map (f : string -> Task) (lines : list string) :
  (forall line, In line lines -> parse_line line = Return (f line)) ->
  map_lines lines = Return (map f lines).
Proof.
  induction lines as [|line rest IH]; intros H; [reflexivity|].
  cbn [map_lines map]. rewrite (H line (or_introl eq_refl)).
  rewrite IH; [reflexivity|]. intros l Hl. apply H. right. exact Hl.
Qed.

Lemma map_lines_Throw (lines : list string) (line : string) (e : exn) :
  In line lines -> parse_line line = Throw e ->
  map_lines lines = Throw undefined_token.
Proof.
  induction lines as [|l rest IH]; intros Hin Hthrow; [contradiction|].
  cbn [map_lines]. destruct (parse_line l) as [t|e'] eqn:El.
  - destruct Hin as [->|Hin]; [congruence|].
    rewrite (IH Hin Hthrow). reflexivity.
  - f_equal. eapply parse_line_Throw, El.
Qed.

Lemma map_lines_Return_length (lines : list string) (ts : list Task) :
  map_lines lines = Return ts -> length ts = length lines.
Proof.
  revert ts. induction lines as [|l rest IH]; intros ts H; cbn [map_lines] in H.
  - injection H as <-. reflexivity.
  - destruct (parse_line l); [|discriminate].
    destruct (map_lines rest) as [ts'|]; [|discriminate].
    injection H as <-. cbn [length]. f_equal. apply IH. reflexivity.
Qed.

(** The tasks of a successful parse are those of the lines, one for
    one and in order; here with the tasks read off a list of receipts. *)
Lemma map_lines_pairs_lines_with_receipts (lines : list string) (receipts : list Receipt) :
  map_lines lines = Return (map task receipts) ->
  Forall2 (fun line r => parse_line line = Return (task r)) lines receipts.
Proof.
  revert receipts. induction lines as [|l rest IH]; intros receipts H; cbn [map_lines] in H.
  - destruct receipts; [constructor | discriminate H].
  - destruct (parse_line l) as [t|] eqn:El; [|discriminate].
    destruct (map_lines rest) as [ts'|] eqn:Er; [|discriminate].
    destruct receipts as [|r receipts]; [discriminate H|].
    cbn [map] in H. injection H as Ht Hts. subst t ts'.
    constructor; [exact El | apply IH; reflexivity].
Qed.

Lemma parse_tasks_not_nil (tasks : string) (ts : list Task) :
  parse_tasks tasks = Return ts -> ts <> [].
Proof.
  unfold parse_tasks. intros H Hnil. apply map_lines_Return_length in H.
  subst ts. pose proof (split_not_nil LF tasks) as Hs.
  destruct (JS.split LF tasks); [congruence | discriminate].
Qed.

(* ---------------------------------------------------------------- *)
(** *** The run *)

Lemma bind_Return {A B : Type} (m : M A) (k : A -> M B) (log log' : Log) (a : A) :
  m log = (Return a, log') -> bind m k log = k a log'.
Proof. intros H. unfold bind. rewrite H. reflexivity. Qed.

Lemma bind_Throw {A B : Type} (m : M A) (k : A -> M B) (log log' : Log) (e : exn) :
  m log = (Throw e, log') -> bind m k log = (Throw e, log').
Proof. intros H. unfold bind. rewrite H. reflexivity. Qed.

Lemma wallet_loaded (w : Wallet) : nsec w <> "" -> String.eqb (nsec w) "" = false.
Proof. apply String.eqb_neq. Qed.

(** A parse failure: one console line, one toast, and nothing else. *)
Lemma handleTransfer_parse_failed (relay : option Relay) (w : Wallet) (tasks : string) (e : exn) :
  nsec w <> "" ->
  parse_tasks tasks = Throw e ->
  handleTransfer relay (Some w) tasks [] =
    (Return tt,
     [setLoading true; console_error "Parse tasks error: " e;
      toast_error "转账地址格式错误"; setLoading false]).
Proof.
  intros Hw Hp. unfold handleTransfer. rewrite (wallet_loaded w Hw).
  unfold bind, try_catch_finally, lift, act, ret. rewrite Hp. reflexivity.
Qed.

(** After a successful parse the loop runs over the parsed tasks and the
    receipts are exported. *)
Lemma handleTransfer_parsed (relay : option Relay) (w : Wallet) (tasks : string) (ts : list Task) :
  nsec w <> "" ->
  parse_tasks tasks = Return ts ->
  handleTransfer relay (Some w) tasks [] =
    bind (for_tasks relay w ts []) export_receipts [setLoading true; setLoading false].
Proof.
  intros Hw Hp. pose proof (parse_tasks_not_nil tasks ts Hp) as Hne.
  unfold handleTransfer. rewrite (wallet_loaded w Hw).
  unfold bind at 1 2, try_catch_finally, lift, act, ret. rewrite Hp.
  unfold bind at 1. cbn [app].
  destruct ts as [|t ts']; [congruence | reflexivity].
Qed.

Lemma published_ids_app (l1 l2 : Log) :
  published_ids (l1 ++ l2)%list = (published_ids l1 ++ published_ids l2)%list.
Proof. apply flat_map_app. Qed.

Lemma receipt_ids_app (r1 r2 : list Receipt) :
  receipt_ids (r1 ++ r2)%list = (receipt_ids r1 ++ receipt_ids r2)%list.
Proof. apply flat_map_app. Qed.

Lemma transfer_no_relay (tok : string) (amt : JS.number) (recv : string)
  (sk : Uint8Array) (log : Log) :
  transfer None tok amt recv sk log
  = (Return None, (log ++ [toast_error "请先连接 relay"])%list).
Proof. reflexivity. Qed.

Lemma transfer_connect_rejected (r : Relay) (tok : string) (amt : JS.number)
  (recv : string) (sk : Uint8Array) (log : Log) (e : exn) :
  relay_connected env log = false ->
  connect_rejects env log = Some e ->
  transfer (Some r) tok amt recv sk log
  = (Throw e, (log ++ [relay_connect (Some e)])%list).
Proof.
  intros Hc He. cbv beta iota delta [transfer bind history connect act throw].
  rewrite Hc. cbn [negb]. rewrite He. reflexivity.
Qed.

Lemma transfer_publishes (r : Relay) (tok : string) (amt : JS.number)
  (recv : string) (sk : Uint8Array) (log : Log) :
  relay_connected env log = true \/ connect_rejects env log = None ->
  let log1 := after_connect log in
  let event :=
    finalizeEvent
      {| content := nip04_encrypt env log1 sk LNFI_SEND_ADDR (transfer_message tok amt recv);
         tags := [["p"; LNFI_SEND_ADDR]; ["r"; "json"]];
         kind := 4;
         created_at := (Date_now env log1 / 1000)%Z |} sk in
  transfer (Some r) tok amt recv sk log
  = match publish_rejects env log1 event with
    | None => (Return (Some (id event)), (log1 ++ [relay_publish event None])%list)
    | Some e => (Throw e, (log1 ++ [relay_publish event (Some e)])%list)
    end.
Proof.
  intros H.
  cbv beta iota zeta delta [after_connect transfer bind history connect publish act throw ret].
  destruct (relay_connected env log) eqn:Hc; cbn [negb].
  - destruct (publish_rejects env log _); reflexivity.
  - destruct H as [H|H]; [discriminate|]. rewrite H.
    destruct (publish_rejects env _ _); reflexivity.
Qed.

(** What any call of [transfer] adds to the log. *)
Lemma transfer_log (relay : option Relay) (tok : string) (amt : JS.number)
  (recv : string) (sk : Uint8Array) (log log' : Log) (o : outcome (option string)) :
  transfer relay tok amt recv sk log = (o, log') ->
  exists mid,
    log' = (log ++ mid)%list /\ quiet mid
    /\ match o with
       | Return x => published_ids mid = receipt_ids [{| task := mkTask recv amt tok; eventId := property_of x; error := Absent |}]
       | Throw _ => published_ids mid = []
       end.
Proof.
  unfold quiet. destruct relay as [r|].
  - destruct (relay_connected env log) eqn:Hc.
    + rewrite (transfer_publishes r tok amt recv sk log (or_introl Hc)).
      unfold after_connect. rewrite Hc.
      destruct (publish_rejects env log _); intros [= <- <-];
        eexists; (split; [reflexivity|]); split; try reflexivity; repeat constructor.
    + destruct (connect_rejects env log) as [e|] eqn:He.
      * rewrite (transfer_connect_rejected r tok amt recv sk log e Hc He).
        intros [= <- <-].
        eexists; (split; [reflexivity|]); split; try reflexivity; repeat constructor.
      * rewrite (transfer_publishes r tok amt recv sk log (or_intror He)).
        unfold after_connect. rewrite Hc.
        destruct (publish_rejects env _ _); intros [= <- <-];
          rewrite <- app_assoc;
          eexists; (split; [reflexivity|]); split; try reflexivity; repeat constructor.
  - rewrite transfer_no_relay. intros [= <- <-].
    eexists; (split; [reflexivity|]); split; try reflexivity; repeat constructor.
Qed.

Lemma bind_assoc {A B C : Type} (m : M A) (k : A -> M B) (k' : B -> M C) (log : Log) :
  bind (bind m k) k' log = bind m (fun x => bind (k x) k') log.
Proof. unfold bind. destruct (m log) as [[a|e] log1]; reflexivity. Qed.

Lemma bind_ext {A B : Type} (m : M A) (k1 k2 : A -> M B) (log : Log) :
  (forall a log', k1 a log' = k2 a log') -> bind m k1 log = bind m k2 log.
Proof. intros H. unfold bind. destruct (m log) as [[a|e] log1]; [apply H | reflexivity]. Qed.

(** The loop over a concatenation is the loop over the first part, then
    over the second with the receipts and the log the first left. *)
Lemma for_tasks_app (relay : option Relay) (w : Wallet) (pre post : list Task)
  (receipts : list Receipt) (log : Log) :
  for_tasks relay w (pre ++ post)%list receipts log
  = bind (for_tasks relay w pre receipts) (for_tasks relay w post) log.
Proof.
  revert receipts log. induction pre as [|t pre IH]; intros receipts log; [reflexivity|].
  cbn [app for_tasks]. destruct (negb (JS.includes SUPPORTED_TOKENS (token t))).
  - apply IH.
  - rewrite bind_assoc. apply bind_ext. intros x log1. apply IH.
Qed.

(** What the loop adds to the log and to the receipts. *)
Lemma for_tasks_log (relay : option Relay) (w : Wallet) (ts : list Task)
  (receipts : list Receipt) (log log' : Log) (o : outcome (list Receipt)) :
  for_tasks relay w ts receipts log = (o, log') ->
  exists mid,
    log' = (log ++ mid)%list /\ quiet mid
    /\ match o with
       | Return receipts' =>
           map task receipts' = (map task receipts ++ ts)%list
           /\ receipt_ids receipts' = (receipt_ids receipts ++ published_ids mid)%list
       | Throw _ => True
       end.
Proof.
  revert receipts log. induction ts as [|t ts IH]; intros receipts log.
  - cbn [for_tasks]. unfold ret. intros [= <- <-]. exists [].
    rewrite !app_nil_r. repeat split. constructor.
  - cbn [for_tasks]. destruct (negb (JS.includes SUPPORTED_TOKENS (token t))).
    + intros H. apply IH in H as (mid & -> & Hq & Ho). exists mid.
      split; [reflexivity|]. split; [exact Hq|].
      destruct o as [receipts'|e]; [|exact I].
      destruct Ho as [Hm Hi]. rewrite Hm, Hi, map_app, receipt_ids_app.
      cbn. rewrite <- !app_assoc, ?app_nil_r. split; reflexivity.
    + unfold bind.
      destruct (transfer relay (token t) (amount t) (address t) (privateKey w) log)
        as [[x|e] log1] eqn:Et.
      * apply transfer_log in Et as (mid1 & -> & Hq1 & Hp1).
        intros H. apply IH in H as (mid & -> & Hq & Ho).
        exists (mid1 ++ mid)%list. rewrite app_assoc. split; [reflexivity|].
        split; [apply Forall_app; split; assumption|].
        destruct o as [receipts'|e]; [|exact I].
        destruct Ho as [Hm Hi].
        rewrite Hm, Hi, map_app, receipt_ids_app, published_ids_app, Hp1.
        cbn [map task]. rewrite <- !app_assoc. split; reflexivity.
      * apply transfer_log in Et as (mid1 & -> & Hq1 & Hp1).
        intros [= <- <-]. exists mid1. repeat split. exact Hq1.
Qed.

(* ---------------------------------------------------------------- *)
(** *** Unsupported tokens *)

(** C3.  A parsed task whose token is outside [SUPPORTED_TOKENS] gets
    its error receipt at once: the receipts grow by that receipt, the log
    does not grow at all (no call on the relay, nor anything else), and
    the run goes on with the tasks after it. *)
Theorem unsupported_token_is_rejected_offline
  (relay : option Relay) (w : Wallet) (tasks : string)
  (pre post : list Task) (t : Task) (receipts : list Receipt) (log : Log) :
  nsec w <> "" ->
  parse_tasks tasks = Return (pre ++ t :: post)%list ->
  supported t = false ->
  for_tasks relay w pre [] [setLoading true; setLoading false] = (Return receipts, log) ->
  for_tasks relay w (pre ++ [t])%list [] [setLoading true; setLoading false]
  = (Return (receipts ++ [rejected_receipt t])%list, log)
  /\ handleTransfer relay (Some w) tasks []
     = bind (for_tasks relay w post (receipts ++ [rejected_receipt t])%list)
         export_receipts log.
Proof.
  intros Hw Hp Ht Hpre. unfold supported in Ht. split.
  - rewrite for_tasks_app, (bind_Return _ _ _ _ _ Hpre).
    cbn [for_tasks]. rewrite Ht. reflexivity.
  - rewrite (handleTransfer_parsed relay w tasks _ Hw Hp).
    unfold bind at 1. rewrite for_tasks_app, (bind_Return _ _ _ _ _ Hpre).
    cbn [for_tasks]. rewrite Ht. cbn [negb]. reflexivity.
Qed.

(* ---------------------------------------------------------------- *)
(** *** Parse failures *)

(** C4.  When the mapping throws on some line, the parse as a whole
    throws, and the run consists of the loading flag going up, one console
    line, one error toast and the loading flag going down: no task, no
    publish, no export, whatever the other lines are. *)
Theorem throwing_line_aborts_the_whole_input
  (relay : option Relay) (w : Wallet) (tasks line : string) (e : exn) :
  nsec w <> "" ->
  In line (JS.split LF tasks) ->
  parse_line line = Throw e ->
  parse_tasks tasks = Throw undefined_token
  /\ handleTransfer relay (Some w) tasks []
     = (Return tt,
        [setLoading true;
         console_error "Parse tasks error: " undefined_token;
         toast_error "转账地址格式错误";
         setLoading false]).
Proof.
  intros Hw Hin Hthrow.
  assert (parse_tasks tasks = Throw undefined_token) as Hp
      by (unfold parse_tasks; eapply map_lines_Throw; eassumption).
  split; [exact Hp|]. apply handleTransfer_parse_failed; assumption.
Qed.

(* ---------------------------------------------------------------- *)
(** *** The message *)

(** C8.  For a task with a supported token, reached with a relay handle
    that is connected or connects: the plaintext is
    "transfer <amount> <token> to <address>"; it is encrypted with the
    wallet's private key for [LNFI_SEND_ADDR]; the event is finalized
    with the same key from the ciphertext, the tags [p, LNFI_SEND_ADDR]
    and [r, json], kind 4 and the clock in seconds; that event is what is
    published, and when the publish resolves its [id] is the receipt's
    [eventId] and the receipt has no [error]. *)
Theorem supported_task_publishes_the_signed_instruction
  (r : Relay) (w : Wallet) (t : Task) (rest : list Task)
  (receipts : list Receipt) (log : Log) :
  supported t = true ->
  relay_connected env log = true \/ connect_rejects env log = None ->
  let log1 := after_connect log in
  let plaintext :=
    "transfer " ++ JS.Number_toString large_digits (amount t)
      ++ " " ++ token t ++ " to " ++ address t in
  let event :=
    finalizeEvent
      {| content := nip04_encrypt env log1 (privateKey w) LNFI_SEND_ADDR plaintext;
         tags := [["p"; LNFI_SEND_ADDR]; ["r"; "json"]];
         kind := 4;
         created_at := (Date_now env log1 / 1000)%Z |}
      (privateKey w) in
  publish_rejects env log1 event = None ->
  for_tasks (Some r) w (t :: rest) receipts log
  = for_tasks (Some r) w rest
      (receipts ++ [{| task := t; eventId := Present (id event); error := Absent |}])%list
      (log1 ++ [relay_publish event None])%list.
Proof.
  intros Ht Hc log1 plaintext event Hpub. unfold supported in Ht.
  cbn [for_tasks]. rewrite Ht. cbn [negb].
  pose proof (transfer_publishes r (token t) (amount t) (address t) (privateKey w) log Hc)
    as Htr.
  cbv zeta in Htr. fold log1 in Htr. unfold transfer_message in Htr.
  fold plaintext in Htr. fold event in Htr. rewrite Hpub in Htr.
  rewrite (bind_Return _ _ _ _ _ Htr). reflexivity.
Qed.

(* ---------------------------------------------------------------- *)
(** *** Rejected publishes *)

(** C5.  When the publish of a supported task is rejected, nothing
    catches the rejection: the loop and the whole run end in that error
    with the rejected publish as the last action, the tasks after it are
    not touched, and no receipt is exported, for the failing task or for
    any other. *)
Theorem rejected_publish_aborts_the_batch
  (r : Relay) (w : Wallet) (tasks : string)
  (pre post : list Task) (t : Task) (receipts : list Receipt) (log : Log) (e : exn) :
  nsec w <> "" ->
  parse_tasks tasks = Return (pre ++ t :: post)%list ->
  supported t = true ->
  for_tasks (Some r) w pre [] [setLoading true; setLoading false] = (Return receipts, log) ->
  relay_connected env log = true \/ connect_rejects env log = None ->
  let log1 := after_connect log in
  let event :=
    finalizeEvent
      {| content := nip04_encrypt env log1 (privateKey w) LNFI_SEND_ADDR
                      (transfer_message (token t) (amount t) (address t));
         tags := [["p"; LNFI_SEND_ADDR]; ["r"; "json"]];
         kind := 4;
         created_at := (Date_now env log1 / 1000)%Z |}
      (privateKey w) in
  publish_rejects env log1 event = Some e ->
  let final := (log1 ++ [relay_publish event (Some e)])%list in
  for_tasks (Some r) w (pre ++ t :: post)%list [] [setLoading true; setLoading false]
  = (Throw e, final)
  /\ handleTransfer (Some r) (Some w) tasks [] = (Throw e, final)
  /\ forall name exported, ~ In (download name exported) final.
Proof.
  intros Hw Hp Ht Hpre Hc log1 event Hpub final. unfold supported in Ht.
  assert (for_tasks (Some r) w (pre ++ t :: post)%list [] [setLoading true; setLoading false]
          = (Throw e, final)) as Hloop.
  { rewrite for_tasks_app, (bind_Return _ _ _ _ _ Hpre).
    cbn [for_tasks]. rewrite Ht. cbn [negb].
    pose proof (transfer_publishes r (token t) (amount t) (address t) (privateKey w) log Hc)
      as Htr.
    cbv zeta in Htr. fold log1 in Htr. fold event in Htr. rewrite Hpub in Htr.
    rewrite (bind_Throw _ _ _ _ _ Htr). reflexivity. }
  split; [exact Hloop|]. split.
  - rewrite (handleTransfer_parsed (Some r) w tasks _ Hw Hp).
    apply bind_Throw. exact Hloop.
  - intros name exported Hin.
    apply for_tasks_log in Hloop as (mid & Hfinal & Hq & _).
    rewrite Hfinal in Hin. cbn [app] in Hin.
    destruct Hin as [Hin|[Hin|Hin]]; try discriminate Hin.
    unfold quiet in Hq. rewrite Forall_forall in Hq.
    specialize (Hq _ Hin). discriminate Hq.
Qed.

(* ---------------------------------------------------------------- *)
(** *** The task text format *)

Lemma well_formed_line_parses (line : string) :
  spec_well_formed line = true -> parse_line line = Return (spec_task_of_line line).
Proof.
  unfold spec_well_formed, parse_line, spec_task_of_line, field.
  destruct (JS.split "-" line) as [|a [|t [|m [|x rest]]]]; try discriminate.
  intros Hm. cbn [nth hd_error]. rewrite (parseInt_decimal_literal m Hm). reflexivity.
Qed.

(** C6.  A text whose lines all have the shape address-tokenKind-amount
    parses to one task per line, in line order; the task of a line has
    the first field as address, the upper-cased second field as token and
    the Number of the third field's decimal value as amount, which below
    2^53 is that value itself. *)
Theorem well_formed_text_parses_line_by_line (tasks : string) :
  Forall (fun line => spec_well_formed line = true) (JS.split LF tasks) ->
  parse_tasks tasks = Return (map spec_task_of_line (JS.split LF tasks))
  /\ length (map spec_task_of_line (JS.split LF tasks)) = length (JS.split LF tasks)
  /\ (forall i line,
         nth_error (JS.split LF tasks) i = Some line ->
         nth_error (map spec_task_of_line (JS.split LF tasks)) i
         = Some {| address := field 0 line;
                   amount := JS.to_Number false (spec_decimal_value (field 2 line));
                   token := toUpperCase (field 1 line) |})
  /\ (forall line,
         In line (JS.split LF tasks) ->
         (spec_decimal_value (field 2 line) < 2 ^ 53)%N ->
         amount (spec_task_of_line line)
         = JS.Finite false (spec_decimal_value (field 2 line))).
Proof.
  intros Hwf. rewrite Forall_forall in Hwf. split; [|split; [|split]].
  - unfold parse_tasks. apply map_lines_map.
    intros line Hin. apply well_formed_line_parses, Hwf, Hin.
  - apply length_map.
  - intros i line Hi. rewrite nth_error_map, Hi. reflexivity.
  - intros line _ Hsafe. cbn [amount spec_task_of_line].
    apply to_Number_safe, Hsafe.
Qed.

Lemma split_app_sep (sep : ascii) (a rest : string) :
  occurs sep a = false ->
  JS.split sep (a ++ String sep rest) = a :: JS.split sep rest.
Proof.
  induction a as [|c a IH]; intros H; cbn [append JS.split].
  - rewrite Ascii.eqb_refl. reflexivity.
  - cbn [occurs] in H. apply orb_false_iff in H as [Hc Ha].
    rewrite Hc, (IH Ha). reflexivity.
Qed.

Lemma split_hyphen (a rest : string) :
  occurs "-" a = false ->
  JS.split "-" (a ++ "-" ++ rest) = a :: JS.split "-" rest.
Proof. apply (split_app_sep "-" a rest). Qed.

(** C10.  A line with more than two hyphens, written as its first three
    hyphen-free fields followed by whatever comes after the third hyphen:
    the split has more than three fields, the parser does not throw, and
    the task is made of the first three fields alone.  So when the
    address was meant to be [a-t], the task has address [a], token [t]
    upper-cased and the parse of the meant token as amount. *)
Theorem fields_after_the_third_are_discarded (a t m more : string) :
  occurs "-" a = false ->
  occurs "-" t = false ->
  occurs "-" m = false ->
  let line := a ++ "-" ++ t ++ "-" ++ m ++ "-" ++ more in
  JS.split "-" line = a :: t :: m :: JS.split "-" more
  /\ (3 < length (JS.split "-" line))%nat
  /\ parse_line line
     = Return {| address := a; amount := JS.parseInt (Some m); token := toUpperCase t |}.
Proof.
  intros Ha Ht Hm line.
  assert (JS.split "-" line = a :: t :: m :: JS.split "-" more) as Hs.
  { unfold line. rewrite !split_hyphen by assumption. reflexivity. }
  split; [exact Hs|]. split.
  - rewrite Hs. cbn [length]. pose proof (split_not_nil "-" more) as Hne.
    destruct (JS.split "-" more); [congruence | cbn [length]; lia].
  - rewrite (parse_line_fields line a t _ Hs). reflexivity.
Qed.

Lemma map_lines_app (l1 l2 : list string) (ts1 ts2 : list Task) :
  map_lines l1 = Return ts1 -> map_lines l2 = Return ts2 ->
  map_lines (l1 ++ l2) = Return (ts1 ++ ts2)%list.
Proof.
  revert ts1. induction l1 as [|l l1 IH]; intros ts1 H1 H2; cbn [map_lines app] in *.
  - injection H1 as <-. exact H2.
  - destruct (parse_line l) as [t|]; [|discriminate].
    destruct (map_lines l1) as [ts|]; [|discriminate].
    injection H1 as <-. rewrite (IH ts eq_refl H2). reflexivity.
Qed.

Lemma to_Number_not_NaN (negative : bool) (m : N) : JS.to_Number negative m <> JS.NaN.
Proof. unfold JS.to_Number. destruct (_ <=? _)%N; discriminate. Qed.

Lemma parseInt_NaN_iff (x : option string) :
  JS.parseInt x = JS.NaN <-> leading_digits x = [].
Proof.
  unfold JS.parseInt, leading_digits.
  destruct x as [s|]; unfold JS.parseInt_string;
    destruct (JS.strip_sign _) as [negative unsigned];
    destruct (JS.strip_prefix unsigned) as [radix body];
    destruct (JS.digits_prefix radix body) as [|d ds];
    split; intros H; try reflexivity; try discriminate H;
    exfalso; eapply to_Number_not_NaN, H.
Qed.

(** C9, as the code has it.  A line with at least two fields never
    throws, whatever its third field is: its task has the parse of the
    third field as amount and takes its place among the tasks of the
    other lines.  That amount is NaN exactly when [parseInt] finds no
    leading digit, which includes an absent third field; a field that
    only starts with digits gives their value. *)
Theorem amount_is_whatever_parseInt_yields
  (line a t : string) (rest before after : list string) (ts1 ts2 : list Task) :
  JS.split "-" line = a :: t :: rest ->
  map_lines before = Return ts1 ->
  map_lines after = Return ts2 ->
  let parsed :=
    {| address := a; amount := JS.parseInt (hd_error rest); token := toUpperCase t |} in
  parse_line line = Return parsed
  /\ map_lines (before ++ line :: after) = Return (ts1 ++ parsed :: ts2)%list
  /\ (amount parsed = JS.NaN <-> leading_digits (hd_error rest) = [])
  /\ (rest = [] -> amount parsed = JS.NaN).
Proof.
  intros Hs H1 H2 parsed.
  pose proof (parse_line_fields line a t rest Hs) as Hl. fold parsed in Hl.
  split; [exact Hl|]. split; [|split].
  - apply map_lines_app; [exact H1|]. cbn [map_lines]. rewrite Hl, H2. reflexivity.
  - apply parseInt_NaN_iff.
  - intros ->. reflexivity.
Qed.

(* ---------------------------------------------------------------- *)
(** *** Completed batches *)

Lemma export_receipts_log (receipts : list Receipt) (log : Log) :
  export_receipts receipts log
  = (Return tt,
     (log ++ [download "receipts.json" receipts; setLoading false;
              toast_success "转账成功，交易收据已下载"])%list).
Proof.
  cbv beta iota delta [export_receipts bind act]. rewrite <- !app_assoc. reflexivity.
Qed.

(** C7, as the code has it.  When parsing succeeds and the run comes to
    its end, the log is: the two loading-flag updates, the actions of the
    loop, then the export of the receipts.  There is one receipt per
    parsed task, in task order, hence one per input line in line order,
    and the identifiers in the receipts are, in the same order, those of
    the events whose publish resolved: the tasks were handled one after
    the other. *)
Theorem completed_batch_has_one_receipt_per_task
  (relay : option Relay) (w : Wallet) (tasks : string) (ts : list Task) (log : Log) :
  nsec w <> "" ->
  parse_tasks tasks = Return ts ->
  handleTransfer relay (Some w) tasks [] = (Return tt, log) ->
  exists receipts mid,
    log = ([setLoading true; setLoading false] ++ mid
           ++ [download "receipts.json" receipts; setLoading false;
               toast_success "转账成功，交易收据已下载"])%list
    /\ quiet mid
    /\ map task receipts = ts
    /\ length receipts = length ts
    /\ Forall2 (fun line r => parse_line line = Return (task r))
         (JS.split LF tasks) receipts
    /\ receipt_ids receipts = published_ids mid.
Proof.
  intros Hw Hp Hrun. rewrite (handleTransfer_parsed relay w tasks ts Hw Hp) in Hrun.
  unfold bind in Hrun.
  destruct (for_tasks relay w ts [] [setLoading true; setLoading false])
    as [[receipts|e] log1] eqn:Eloop; [|discriminate Hrun].
  rewrite export_receipts_log in Hrun. injection Hrun as <-.
  apply for_tasks_log in Eloop as (mid & -> & Hq & Hm & Hi).
  exists receipts, mid. rewrite <- app_assoc. cbn [map receipt_ids flat_map app] in Hm, Hi.
  split; [reflexivity|]. split; [exact Hq|]. split; [exact Hm|]. split; [|split].
  - rewrite <- Hm. symmetry. apply length_map.
  - apply map_lines_pairs_lines_with_receipts. rewrite Hm. exact Hp.
  - exact Hi.
Qed.

(* ---------------------------------------------------------------- *)
(** *** A relay that is down *)

Lemma for_tasks_unsupported (relay : option Relay) (w : Wallet) (pre post : list Task)
  (receipts : list Receipt) (log : Log) :
  Forall (fun t => supported t = false) pre ->
  for_tasks relay w (pre ++ post)%list receipts log
  = for_tasks relay w post (receipts ++ map rejected_receipt pre)%list log.
Proof.
  revert receipts. induction pre as [|t pre IH]; intros receipts H.
  - cbn [app map]. rewrite app_nil_r. reflexivity.
  - inversion H as [|? ? Ht Hpre]; subst. unfold supported in Ht.
    cbn [app for_tasks map]. rewrite Ht. cbn [negb].
    rewrite (IH _ Hpre), <- app_assoc. reflexivity.
Qed.

(** C2, as the code has it.  With a relay handle whose connection is
    down, no connect is made up front.  The tasks with unsupported tokens
    that come first get their error receipts with no call on the relay;
    the connect is made when the first task with a supported token is
    reached.  When that connect is rejected the run ends in its error,
    the failed connect is the only call on the relay, nothing is published
    and no receipt is exported. *)
Theorem failed_connect_at_first_supported_task_aborts
  (r : Relay) (w : Wallet) (tasks : string)
  (pre post : list Task) (t : Task) (e : exn) :
  nsec w <> "" ->
  parse_tasks tasks = Return (pre ++ t :: post)%list ->
  Forall (fun t' => supported t' = false) pre ->
  supported t = true ->
  relay_connected env [setLoading true; setLoading false] = false ->
  connect_rejects env [setLoading true; setLoading false] = Some e ->
  for_tasks (Some r) w pre [] [setLoading true; setLoading false]
  = (Return (map rejected_receipt pre), [setLoading true; setLoading false])
  /\ handleTransfer (Some r) (Some w) tasks []
     = (Throw e, [setLoading true; setLoading false; relay_connect (Some e)]).
Proof.
  intros Hw Hp Hpre Ht Hdown He. unfold supported in Ht. split.
  - rewrite <- (app_nil_r pre) at 1. rewrite (for_tasks_unsupported _ _ _ _ _ _ Hpre).
    reflexivity.
  - rewrite (handleTransfer_parsed (Some r) w tasks _ Hw Hp).
    apply bind_Throw. rewrite (for_tasks_unsupported _ _ _ _ _ _ Hpre).
    cbn [for_tasks]. rewrite Ht. cbn [negb].
    apply bind_Throw.
    apply (transfer_connect_rejected r _ _ _ _ _ e Hdown He).
Qed.

(* ---------------------------------------------------------------- *)
(** *** Receipts and their outcome *)

Lemma transfer_with_relay_returns_id (r : Relay) (tok : string) (amt : JS.number)
  (recv : string) (sk : Uint8Array) (log log' : Log) (x : option string) :
  transfer (Some r) tok amt recv sk log = (Return x, log') ->
  exists tmpl, x = Some (id (finalizeEvent tmpl sk)).
Proof.
  destruct (relay_connected env log) eqn:Hc.
  - rewrite (transfer_publishes r tok amt recv sk log (or_introl Hc)).
    destruct (publish_rejects env _ _); intros [= <- <-]. eexists; reflexivity.
  - destruct (connect_rejects env log) as [e|] eqn:He.
    + rewrite (transfer_connect_rejected r tok amt recv sk log e Hc He). discriminate.
    + rewrite (transfer_publishes r tok amt recv sk log (or_intror He)).
      destruct (publish_rejects env _ _); intros [= <- <-]. eexists; reflexivity.
Qed.

(** A property of receipts that holds of the two receipts the loop can
    push when there is a relay handle holds of all the receipts it
    returns. *)
Lemma for_tasks_with_relay_invariant (P : Receipt -> Prop) (r : Relay) (w : Wallet)
  (ts : list Task) (receipts receipts' : list Receipt) (log log' : Log) :
  (forall t, P (rejected_receipt t)) ->
  (forall t tmpl,
      P {| task := t; eventId := Present (id (finalizeEvent tmpl (privateKey w)));
           error := Absent |}) ->
  Forall P receipts ->
  for_tasks (Some r) w ts receipts log = (Return receipts', log') ->
  Forall P receipts'.
Proof.
  intros Hrej Hpub. revert receipts log.
  induction ts as [|t ts IH]; intros receipts log Hall.
  - cbn [for_tasks]. unfold ret. intros [= <- <-]. exact Hall.
  - cbn [for_tasks]. destruct (negb (JS.includes SUPPORTED_TOKENS (token t))).
    + apply IH. apply Forall_app. split; [exact Hall|].
      constructor; [apply Hrej | constructor].
    + unfold bind.
      destruct (transfer (Some r) (token t) (amount t) (address t) (privateKey w) log)
        as [[x|e] log1] eqn:Et; [|discriminate].
      apply transfer_with_relay_returns_id in Et as [tmpl ->].
      apply IH. apply Forall_app. split; [exact Hall|].
      constructor; [apply Hpub | constructor].
Qed.

(** The receipts that a run exports are those the loop returned. *)
Lemma exported_receipts_come_from_the_loop (relay : option Relay) (w : Wallet)
  (tasks name : string) (receipts : list Receipt) :
  nsec w <> "" ->
  In (download name receipts) (snd (handleTransfer relay (Some w) tasks [])) ->
  exists ts log,
    parse_tasks tasks = Return ts
    /\ for_tasks relay w ts [] [setLoading true; setLoading false] = (Return receipts, log).
Proof.
  intros Hw Hin. destruct (parse_tasks tasks) as [ts|e] eqn:Hp.
  - rewrite (handleTransfer_parsed relay w tasks ts Hw Hp) in Hin.
    unfold bind in Hin.
    destruct (for_tasks relay w ts [] [setLoading true; setLoading false])
      as [[rs|e] log1] eqn:Eloop.
    + rewrite export_receipts_log in Hin. cbn [snd] in Hin.
      exists ts, log1. split; [reflexivity|].
      apply for_tasks_log in Eloop as Hlog. destruct Hlog as (mid & -> & Hq & _).
      rewrite <- app_assoc in Hin. cbn [app] in Hin.
      destruct Hin as [Hin|[Hin|Hin]]; try discriminate Hin.
      apply in_app_or in Hin as [Hin|Hin].
      * unfold quiet in Hq. rewrite Forall_forall in Hq.
        specialize (Hq _ Hin). discriminate Hq.
      * destruct Hin as [Hin|[Hin|[Hin|[]]]]; try discriminate Hin.
        injection Hin as _ <-. exact Eloop.
    + cbn [snd] in Hin.
      apply for_tasks_log in Eloop as (mid & -> & Hq & _). cbn [app] in Hin.
      destruct Hin as [Hin|[Hin|Hin]]; try discriminate Hin.
      unfold quiet in Hq. rewrite Forall_forall in Hq.
      specialize (Hq _ Hin). discriminate Hq.
  - rewrite (handleTransfer_parse_failed relay w tasks e Hw Hp) in Hin.
    cbn [snd] in Hin.
    destruct Hin as [Hin|[Hin|[Hin|[Hin|[]]]]]; discriminate Hin.
Qed.

(** With a relay handle, every receipt that is exported has exactly one
    of [eventId] and [error]. *)
Lemma receipts_have_one_outcome_with_relay (r : Relay) (w : Wallet) (tasks : string) :
  nsec w <> "" -> receipts_have_one_outcome (Some r) w tasks.
Proof.
  intros Hw name receipts x Hin Hx.
  apply (exported_receipts_come_from_the_loop _ _ _ _ _ Hw) in Hin
    as (ts & log & _ & Hloop).
  apply (for_tasks_with_relay_invariant (fun x => exactly_one_outcome x = true))
    in Hloop; try (intros; reflexivity); [|constructor].
  rewrite Forall_forall in Hloop. apply Hloop, Hx.
Qed.

(** With a relay handle and a library whose event ids are never empty,
    every receipt that is exported carries a non-empty event id and no
    error, or an error and no event id. *)
Lemma receipts_are_settled_with_relay (r : Relay) (w : Wallet) (tasks name : string)
  (receipts : list Receipt) (x : Receipt) :
  (forall tmpl sk, id (finalizeEvent tmpl sk) <> "") ->
  nsec w <> "" ->
  In (download name receipts) (snd (handleTransfer (Some r) (Some w) tasks [])) ->
  In x receipts ->
  settled x.
Proof.
  intros Hid Hw Hin Hx.
  apply (exported_receipts_come_from_the_loop _ _ _ _ _ Hw) in Hin
    as (ts & log & _ & Hloop).
  apply (for_tasks_with_relay_invariant settled) in Hloop.
  - rewrite Forall_forall in Hloop. apply Hloop, Hx.
  - intros t. exact I.
  - intros t tmpl. apply Hid.
  - constructor.
Qed.

(* ---------------------------------------------------------------- *)
(** *** More on the parser *)

Lemma split_length (sep : ascii) (s : string) :
  length (JS.split sep s) = S (count_char sep s).
Proof.
  induction s as [|c rest IH]; [reflexivity|].
  cbn [JS.split count_char]. destruct (Ascii.eqb c sep).
  - cbn [length]. rewrite IH. reflexivity.
  - pose proof (split_not_nil sep rest) as Hne.
    destruct (JS.split sep rest) as [|f fs]; [congruence | exact IH].
Qed.

Lemma split_app (sep : ascii) (a b : string) :
  JS.split sep (a ++ String sep b) = (JS.split sep a ++ JS.split sep b)%list.
Proof.
  induction a as [|c a IH]; cbn [append JS.split].
  - rewrite Ascii.eqb_refl. reflexivity.
  - rewrite IH. destruct (Ascii.eqb c sep); [reflexivity|].
    pose proof (split_not_nil sep a) as Hne.
    destruct (JS.split sep a) as [|f fs]; [congruence | reflexivity].
Qed.

Lemma split_field_has_no_separator (sep : ascii) (s f : string) :
  In f (JS.split sep s) -> occurs sep f = false.
Proof.
  revert f. induction s as [|c rest IH]; intros f Hin; cbn [JS.split] in Hin.
  - destruct Hin as [<-|[]]. reflexivity.
  - destruct (Ascii.eqb c sep) eqn:Hc.
    + destruct Hin as [<-|Hin]; [reflexivity | apply IH, Hin].
    + pose proof (split_not_nil sep rest) as Hne.
      destruct (JS.split sep rest) as [|f0 fs]; [congruence|].
      destruct Hin as [<-|Hin].
      * cbn [occurs]. rewrite Hc. apply IH. left. reflexivity.
      * apply IH. right. exact Hin.
Qed.

Lemma parse_line_with_hyphen (line : string) :
  occurs "-" line = true -> exists t, parse_line line = Return t.
Proof.
  intros H. destruct (split_with_separator "-" line H) as (a & t & rest & Hs).
  eexists. apply (parse_line_fields line a t rest Hs).
Qed.

Lemma map_lines_cases (lines : list string) :
  (Forall (fun line => occurs "-" line = true) lines
   /\ exists ts, map_lines lines = Return ts)
  \/ (Exists (fun line => occurs "-" line = false) lines
      /\ map_lines lines = Throw undefined_token).
Proof.
  induction lines as [|l rest IH].
  - left. split; [constructor | exists []; reflexivity].
  - cbn [map_lines]. destruct (occurs "-" l) eqn:Hl.
    + destruct (parse_line_with_hyphen l Hl) as [t ->].
      destruct IH as [[Hall [ts ->]]|[Hex ->]].
      * left. split; [constructor; assumption | eexists; reflexivity].
      * right. split; [apply Exists_cons_tl, Hex | reflexivity].
    + right. split; [apply Exists_cons_hd, Hl|].
      rewrite (proj2 (parse_line_throws_iff_no_hyphen l) Hl). reflexivity.
Qed.

Lemma hyphen_everywhere_or_missing (lines : list string) :
  Forall (fun line => occurs "-" line = true) lines ->
  Exists (fun line => occurs "-" line = false) lines -> False.
Proof.
  intros Hall Hex. rewrite Forall_forall in Hall. rewrite Exists_exists in Hex.
  destruct Hex as (l & Hin & Hl). rewrite (Hall l Hin) in Hl. discriminate Hl.
Qed.

(** X1.  The parse of a text throws exactly when one of its lines has no
    hyphen, and returns tasks exactly when every line has one: nothing else
    about a line (an empty address, an unknown token, a missing or
    unreadable amount) makes the parse fail. *)
Theorem parse_fails_exactly_on_a_line_without_hyphen (tasks : string) :
  (parse_tasks tasks = Throw undefined_token
   <-> Exists (fun line => occurs "-" line = false) (JS.split LF tasks))
  /\ ((exists ts, parse_tasks tasks = Return ts)
      <-> Forall (fun line => occurs "-" line = true) (JS.split LF tasks)).
Proof.
  unfold parse_tasks.
  destruct (map_lines_cases (JS.split LF tasks)) as [[Hall [ts Hts]]|[Hex Hthrow]].
  - split; split.
    + rewrite Hts. discriminate.
    + intros Hex. destruct (hyphen_everywhere_or_missing _ Hall Hex).
    + intros _. exact Hall.
    + intros _. exists ts. exact Hts.
  - split; split.
    + intros _. exact Hex.
    + intros _. exact Hthrow.
    + rewrite Hthrow. intros [ts Hts]. discriminate Hts.
    + intros Hall. destruct (hyphen_everywhere_or_missing _ Hall Hex).
Qed.

(** X2.  A parse that succeeds yields as many tasks as the text has line
    feeds, plus one. *)
Theorem parsed_task_count_is_line_feeds_plus_one (tasks : string) (ts : list Task) :
  parse_tasks tasks = Return ts ->
  length ts = S (count_char LF tasks).
Proof.
  unfold parse_tasks. intros H.
  rewrite (map_lines_Return_length _ _ H). apply split_length.
Qed.

Lemma empty_line_fails_the_parse (tasks : string) :
  In "" (JS.split LF tasks) -> parse_tasks tasks = Throw undefined_token.
Proof.
  intros Hin. unfold parse_tasks.
  apply (map_lines_Throw _ "" undefined_token Hin). reflexivity.
Qed.

(** X3.  A text with an empty line is rejected as a whole: when the text
    ends with a line feed, starts with one or has two in a row, the run is
    the loading flag going up, the console line, the format toast and the
    loading flag going down, whatever the other lines are. *)
Theorem text_with_an_empty_line_is_rejected_whole
  (relay : option Relay) (w : Wallet) (a b : string) :
  nsec w <> "" ->
  let rejected :=
    (Return tt,
     [setLoading true;
      console_error "Parse tasks error: " undefined_token;
      toast_error "转账地址格式错误";
      setLoading false]) in
  handleTransfer relay (Some w) (a ++ String LF "") [] = rejected
  /\ handleTransfer relay (Some w) (String LF b) [] = rejected
  /\ handleTransfer relay (Some w) (a ++ String LF (String LF b)) [] = rejected.
Proof.
  intros Hw rejected. unfold rejected.
  split; [|split]; apply (handleTransfer_parse_failed _ _ _ _ Hw);
    apply empty_line_fails_the_parse.
  - rewrite split_app. apply in_or_app. right. left. reflexivity.
  - cbn [JS.split]. rewrite Ascii.eqb_refl. left. reflexivity.
  - rewrite split_app. apply in_or_app. right.
    cbn [JS.split]. rewrite Ascii.eqb_refl. left. reflexivity.
Qed.

(* ---------------------------------------------------------------- *)
(** *** More on amounts *)

Lemma occurs_app (c : ascii) (x y : string) :
  occurs c (x ++ y) = occurs c x || occurs c y.
Proof.
  induction x as [|c' x IH]; [reflexivity|].
  cbn [append occurs]. rewrite IH, orb_assoc. reflexivity.
Qed.

Lemma all_digits_no_hyphen (s : string) : all_digits s = true -> occurs "-" s = false.
Proof.
  induction s as [|c rest IH]; [reflexivity|].
  cbn [all_digits occurs]. intros H. apply andb_true_iff in H as [Hc Hrest].
  rewrite (IH Hrest), orb_false_r.
  destruct c as [[] [] [] [] [] [] [] []]; try discriminate Hc; reflexivity.
Qed.

Lemma digit_value_other (c : ascii) :
  is_digit c = false -> JS.digit_value 10 c = None.
Proof.
  intros H. unfold JS.digit_value. fold (is_digit c). rewrite H.
  unfold JS.byte_in.
  destruct (97 <=? N_of_ascii c)%N eqn:Hlo; cbn [andb].
  - apply N.leb_le in Hlo. destruct (N_of_ascii c <=? 122)%N.
    + destruct (N.ltb_spec (N_of_ascii c - 87) 10); [lia | reflexivity].
    + destruct (65 <=? N_of_ascii c)%N eqn:Hlo'; cbn [andb]; [|reflexivity].
      destruct (N_of_ascii c <=? 90)%N; [|reflexivity].
      destruct (N.ltb_spec (N_of_ascii c - 55) 10); [lia | reflexivity].
  - destruct (65 <=? N_of_ascii c)%N eqn:Hlo'; cbn [andb]; [|reflexivity].
    apply N.leb_le in Hlo'. destruct (N_of_ascii c <=? 90)%N; [|reflexivity].
    destruct (N.ltb_spec (N_of_ascii c - 55) 10); [lia | reflexivity].
Qed.

Lemma digits_prefix_stops (ds : string) (c : ascii) (rest : string) :
  all_digits ds = true -> is_digit c = false ->
  JS.digits_prefix 10 (ds ++ String c rest) = JS.digits_prefix 10 ds.
Proof.
  intros Hds Hc. induction ds as [|d ds IH].
  - cbn [append JS.digits_prefix]. rewrite (digit_value_other c Hc). reflexivity.
  - cbn [all_digits] in Hds. apply andb_true_iff in Hds as [Hd Hds].
    cbn [append JS.digits_prefix]. rewrite (digit_value_decimal d Hd), (IH Hds).
    reflexivity.
Qed.

Lemma strip_prefix_decimal (d c : ascii) (rest : string) :
  c <> "x"%char -> c <> "X"%char ->
  JS.strip_prefix (String d (String c rest)) = (10%N, String d (String c rest)).
Proof.
  intros Hx HX.
  destruct c as [[] [] [] [] [] [] [] []]; try congruence;
    destruct d as [[] [] [] [] [] [] [] []]; reflexivity.
Qed.

(** [parseInt] reads the digits and drops what follows them. *)
Lemma parseInt_digits_then_text (digits : string) (c : ascii) (rest : string) :
  spec_decimal_literal digits = true ->
  is_digit c = false -> c <> "x"%char -> c <> "X"%char ->
  JS.parseInt (Some (digits ++ String c rest))
  = JS.to_Number false (spec_decimal_value digits).
Proof.
  destruct digits as [|d ds]; [discriminate|].
  intros H Hc Hx HX. cbn [spec_decimal_literal] in H.
  assert (is_digit d = true) as Hd
      by (cbn [all_digits] in H; apply andb_true_iff in H; apply H).
  unfold JS.parseInt, JS.parseInt_string. cbn [append].
  rewrite (trim_start_digit d _ Hd), (strip_sign_digit d _ Hd).
  assert (JS.strip_prefix (String d (ds ++ String c rest))
          = (10%N, String d (ds ++ String c rest))) as Hp.
  { destruct ds as [|d2 ds'].
    - apply strip_prefix_decimal; assumption.
    - cbn [append]. apply strip_prefix_decimal.
      + intros ->. cbn [all_digits] in H. rewrite !andb_true_iff in H.
        destruct H as (_ & H2 & _). discriminate H2.
      + intros ->. cbn [all_digits] in H. rewrite !andb_true_iff in H.
        destruct H as (_ & H2 & _). discriminate H2. }
  rewrite Hp.
  change (String d (ds ++ String c rest)) with (String d ds ++ String c rest).
  rewrite (digits_prefix_stops (String d ds) c rest H Hc).
  pose proof (digits_prefix_all_digits (String d ds) 0 H) as Hv.
  cbn [JS.digits_prefix] in Hv |- *. rewrite (digit_value_decimal d Hd) in Hv |- *.
  unfold JS.mathInt, spec_decimal_value. rewrite Hv. reflexivity.
Qed.

(** X4.  Text after the digits of the amount is dropped without a word:
    when the third field is a base-10 literal followed by anything that
    starts with a character other than a digit, [x] or [X] (a carriage
    return, a space, a decimal point, a unit), the amount is the value of
    the digits alone. *)
Theorem text_after_the_amount_digits_is_ignored
  (a t digits : string) (c : ascii) (rest : string) :
  occurs "-" a = false ->
  occurs "-" t = false ->
  occurs "-" (String c rest) = false ->
  spec_decimal_literal digits = true ->
  is_digit c = false -> c <> "x"%char -> c <> "X"%char ->
  parse_line (a ++ "-" ++ t ++ "-" ++ digits ++ String c rest)
  = Return {| address := a;
              amount := JS.to_Number false (spec_decimal_value digits);
              token := toUpperCase t |}.
Proof.
  intros Ha Ht Htail Hd Hc Hx HX.
  assert (occurs "-" (digits ++ String c rest) = false) as Hm.
  { rewrite occurs_app, Htail, orb_false_r. apply all_digits_no_hyphen.
    destruct digits; [discriminate Hd | exact Hd]. }
  rewrite (parse_line_fields _ a t [digits ++ String c rest]).
  - cbn [hd_error]. rewrite (parseInt_digits_then_text digits c rest Hd Hc Hx HX).
    reflexivity.
  - rewrite !split_hyphen by assumption.
    rewrite (split_without_separator "-" _ Hm). reflexivity.
Qed.

Lemma trim_start_is_a_suffix (n : nat) (s : string) :
  (String.length s <= n)%nat -> exists p, s = p ++ JS.trim_start s.
Proof.
  revert s. induction n as [|n IH]; intros s Hlen.
  - destruct s; [exists ""; reflexivity | cbn in Hlen; lia].
  - destruct s as [|c1 rest1]; [exists ""; reflexivity|].
    cbn [String.length] in Hlen. cbn [JS.trim_start].
    destruct (JS.byte_in 9 13 c1 || JS.byte_in 32 32 c1).
    { destruct (IH rest1 ltac:(lia)) as [p Hp].
      exists (String c1 p). cbn [append]. rewrite <- Hp. reflexivity. }
    destruct rest1 as [|c2 rest2]; [exists ""; reflexivity|].
    cbn [String.length] in Hlen.
    destruct (JS.byte_in 194 194 c1 && JS.byte_in 160 160 c2).
    { destruct (IH rest2 ltac:(lia)) as [p Hp].
      exists (String c1 (String c2 p)). cbn [append]. rewrite <- Hp. reflexivity. }
    destruct rest2 as [|c3 rest3]; [exists ""; reflexivity|].
    cbn [String.length] in Hlen.
    match goal with |- context [if ?b then _ else _] => destruct b end.
    { destruct (IH rest3 ltac:(lia)) as [p Hp].
      exists (String c1 (String c2 (String c3 p))). cbn [append]. rewrite <- Hp.
      reflexivity. }
    exists "". reflexivity.
Qed.

Lemma trim_start_keeps_absent (c : ascii) (s : string) :
  occurs c s = false -> occurs c (JS.trim_start s) = false.
Proof.
  intros H. destruct (trim_start_is_a_suffix (String.length s) s (le_n _)) as [p Hp].
  rewrite Hp, occurs_app in H. apply orb_false_iff in H. apply H.
Qed.

Lemma strip_sign_without_minus (s : string) :
  occurs "-" s = false -> fst (JS.strip_sign s) = false.
Proof.
  destruct s as [|c rest]; [reflexivity|]. intros H.
  destruct c as [[] [] [] [] [] [] [] []]; try reflexivity.
  cbn in H. discriminate H.
Qed.

Lemma parseInt_without_minus (s : string) :
  occurs "-" s = false -> unsigned_number (JS.parseInt_string s) = true.
Proof.
  intros H. unfold JS.parseInt_string.
  pose proof (strip_sign_without_minus _ (trim_start_keeps_absent "-" s H)) as Hs.
  destruct (JS.strip_sign (JS.trim_start s)) as [negative unsigned].
  cbn [fst] in Hs. subst negative.
  destruct (JS.strip_prefix unsigned) as [radix body].
  destruct (JS.digits_prefix radix body) as [|d ds]; [reflexivity|].
  unfold JS.to_Number. destruct (_ <=? _)%N; reflexivity.
Qed.

(** X5.  No line gives a negative amount: the hyphen is the field
    separator, so the third field never holds a minus sign, and the amount
    of every parsed task is NaN, zero or above, or +Infinity. *)
Theorem parsed_amount_is_never_negative (line : string) (t : Task) :
  parse_line line = Return t -> unsigned_number (amount t) = true.
Proof.
  unfold parse_line.
  destruct (JS.split "-" line) as [|a [|tk rest]] eqn:Hs; try discriminate.
  intros [= <-]. cbn [amount]. destruct rest as [|m rest']; [reflexivity|].
  cbn [hd_error JS.parseInt]. apply parseInt_without_minus.
  apply (split_field_has_no_separator "-" line m). rewrite Hs.
  right. right. left. reflexivity.
Qed.

Lemma string_of_uint_all_digits (d : Decimal.uint) :
  all_digits (NilEmpty.string_of_uint d) = true.
Proof. induction d; cbn [NilEmpty.string_of_uint all_digits]; try rewrite IHd; reflexivity. Qed.

Lemma spec_decimal_from_string_of_uint (d : Decimal.uint) (acc : N) :
  spec_decimal_from acc (NilEmpty.string_of_uint d)
  = (DecimalPos.Unsigned.of_lu (Decimal.rev d)
     + acc * 10 ^ DecimalPos.Unsigned.usize d)%N.
Proof.
  revert acc.
  induction d; intros acc;
    cbn [NilEmpty.string_of_uint spec_decimal_from DecimalPos.Unsigned.usize];
    [ cbn; lia | .. ];
    rewrite IHd; unfold Decimal.rev; cbn [Decimal.revapp];
    rewrite (DecimalPos.Unsigned.of_lu_revapp d (_ Decimal.Nil));
    cbn [DecimalPos.Unsigned.of_lu]; rewrite N.pow_succ_r';
    change (N_of_ascii _ - 48)%N with 0%N || change (N_of_ascii _ - 48)%N with 1%N
    || change (N_of_ascii _ - 48)%N with 2%N || change (N_of_ascii _ - 48)%N with 3%N
    || change (N_of_ascii _ - 48)%N with 4%N || change (N_of_ascii _ - 48)%N with 5%N
    || change (N_of_ascii _ - 48)%N with 6%N || change (N_of_ascii _ - 48)%N with 7%N
    || change (N_of_ascii _ - 48)%N with 8%N || change (N_of_ascii _ - 48)%N with 9%N;
    unfold Decimal.rev; lia.
Qed.

Lemma to_uint_not_Nil (n : N) : N.to_uint n <> Decimal.Nil.
Proof.
  destruct n as [|p]; [discriminate|]. apply DecimalPos.Unsigned.to_uint_nonnil.
Qed.

Lemma decimal_unfold (n : N) : JS.decimal n = NilEmpty.string_of_uint (N.to_uint n).
Proof.
  unfold JS.decimal, NilZero.string_of_uint. pose proof (to_uint_not_Nil n) as H.
  destruct (N.to_uint n); [congruence | reflexivity ..].
Qed.

Lemma decimal_is_a_literal (n : N) : spec_decimal_literal (JS.decimal n) = true.
Proof.
  rewrite decimal_unfold. pose proof (to_uint_not_Nil n) as H.
  pose proof (string_of_uint_all_digits (N.to_uint n)) as Hd.
  destruct (N.to_uint n); [congruence | exact Hd ..].
Qed.

Lemma decimal_value (n : N) : spec_decimal_value (JS.decimal n) = n.
Proof.
  unfold spec_decimal_value.
  rewrite decimal_unfold, spec_decimal_from_string_of_uint, N.mul_0_l, N.add_0_r.
  rewrite <- DecimalPos.Unsigned.of_uint_alt. apply DecimalN.Unsigned.of_to.
Qed.

(** Printing a safe integer and parsing the text gives the integer back,
    and printing that gives the text back. *)
Lemma parseInt_decimal (n : N) :
  (n < 2 ^ 53)%N -> JS.parseInt (Some (JS.decimal n)) = JS.Finite false n.
Proof.
  intros H. rewrite (parseInt_decimal_literal _ (decimal_is_a_literal n)), decimal_value.
  apply to_Number_safe, H.
Qed.

Lemma Number_toString_safe (n : N) :
  (n < 2 ^ 53)%N -> JS.Number_toString large_digits (JS.Finite false n) = JS.decimal n.
Proof.
  intros H. unfold JS.Number_toString.
  destruct (N.eqb_spec n 0) as [->|Hn]; [reflexivity|].
  apply N.ltb_lt in H. rewrite H. reflexivity.
Qed.

(** X12.  An amount typed as the decimal digits of an integer below 2^53,
    with no leading zero, reaches the message as typed: the line parses
    and the plaintext built from its task is "transfer", the same digits,
    the upper-cased token, "to" and the address. *)
Theorem canonical_amount_is_sent_as_typed (a t : string) (n : N) :
  occurs "-" a = false ->
  occurs "-" t = false ->
  (n < 2 ^ 53)%N ->
  exists parsed,
    parse_line (a ++ "-" ++ t ++ "-" ++ JS.decimal n) = Return parsed
    /\ transfer_message (token parsed) (amount parsed) (address parsed)
       = "transfer " ++ JS.decimal n ++ " " ++ toUpperCase t ++ " to " ++ a.
Proof.
  intros Ha Ht Hn.
  assert (occurs "-" (JS.decimal n) = false) as Hm.
  { apply all_digits_no_hyphen. pose proof (decimal_is_a_literal n) as H.
    destruct (JS.decimal n); [discriminate H | exact H]. }
  eexists. split.
  - apply (parse_line_fields _ a t [JS.decimal n]).
    rewrite !split_hyphen by assumption.
    rewrite (split_without_separator "-" _ Hm). reflexivity.
  - cbn [hd_error token amount address]. unfold transfer_message.
    rewrite (parseInt_decimal n Hn), (Number_toString_safe n Hn). reflexivity.
Qed.

(* ---------------------------------------------------------------- *)
(** *** More on the run *)

(** The three ways a call of [transfer] can go. *)
Lemma transfer_cases (relay : option Relay) (w : Wallet) (t : Task) (log : Log) :
  let call := transfer relay (token t) (amount t) (address t) (privateKey w) log in
  (relay = None
   /\ call = (Return None, (log ++ [toast_error "请先连接 relay"])%list))
  \/ (exists e,
        relay <> None
        /\ call = (Throw e, (log ++ [relay_connect (Some e)])%list))
  \/ (exists pre rejected,
        relay <> None
        /\ (pre = [] \/ pre = [relay_connect None])
        /\ call
           = (match rejected with
              | None => Return (Some (id (event_of_task w t (log ++ pre)%list)))
              | Some e => Throw e
              end,
              (log ++ pre
                 ++ [relay_publish (event_of_task w t (log ++ pre)%list) rejected])%list)).
Proof.
  intros call. subst call. destruct relay as [r|].
  - right. destruct (relay_connected env log) eqn:Hc.
    + right. exists [], (publish_rejects env log (event_of_task w t log)).
      split; [discriminate|]. split; [left; reflexivity|].
      rewrite (transfer_publishes r _ _ _ _ log (or_introl Hc)).
      unfold after_connect. rewrite Hc, app_nil_r. cbn [app].
      fold (event_of_task w t log).
      destruct (publish_rejects env log _); reflexivity.
    + destruct (connect_rejects env log) as [e|] eqn:He.
      * left. exists e. split; [discriminate|].
        apply (transfer_connect_rejected r _ _ _ _ log e Hc He).
      * right.
        exists [relay_connect None],
          (publish_rejects env (log ++ [relay_connect None])%list
             (event_of_task w t (log ++ [relay_connect None])%list)).
        split; [discriminate|]. split; [right; reflexivity|].
        rewrite (transfer_publishes r _ _ _ _ log (or_intror He)).
        unfold after_connect. rewrite Hc.
        fold (event_of_task w t (log ++ [relay_connect None])%list).
        destruct (publish_rejects env _ _); rewrite <- app_assoc; reflexivity.
  - left. split; [reflexivity | apply transfer_no_relay].
Qed.

Lemma for_tasks_without_relay (w : Wallet) (ts : list Task)
  (receipts : list Receipt) (log : Log) :
  for_tasks None w ts receipts log
  = (Return (receipts ++ map receipt_without_relay ts)%list,
     (log ++ map (fun _ => toast_error "请先连接 relay") (filter supported ts))%list).
Proof.
  revert receipts log. induction ts as [|t ts IH]; intros receipts log.
  - cbn. rewrite !app_nil_r. reflexivity.
  - cbn [for_tasks map filter]. unfold receipt_without_relay at 1. fold (supported t).
    destruct (supported t); cbn [negb].
    + rewrite (bind_Return _ _ _ _ _ (transfer_no_relay _ _ _ _ log)).
      rewrite IH. cbn [map app property_of]. rewrite <- !app_assoc. reflexivity.
    + rewrite IH. rewrite <- !app_assoc. reflexivity.
Qed.

(** X6.  With no relay handle a batch that parses always runs to its end
    and reports success: each task with a supported token costs one
    "connect the relay first" toast and gets a receipt with neither event
    id nor error, the others get their error receipt, and the relay is
    never called. *)
Theorem without_relay_handle_the_batch_completes_unsent
  (w : Wallet) (tasks : string) (ts : list Task) :
  nsec w <> "" ->
  parse_tasks tasks = Return ts ->
  handleTransfer None (Some w) tasks []
  = (Return tt,
     ([setLoading true; setLoading false]
        ++ map (fun _ => toast_error "请先连接 relay") (filter supported ts)
        ++ [download "receipts.json"
              (map (fun t => if supported t
                             then {| task := t; eventId := Undefined; error := Absent |}
                             else rejected_receipt t) ts);
            setLoading false;
            toast_success "转账成功，交易收据已下载"])%list).
Proof.
  intros Hw Hp. rewrite (handleTransfer_parsed None w tasks ts Hw Hp).
  rewrite (bind_Return _ _ _ _ _ (for_tasks_without_relay w ts [] _)).
  rewrite export_receipts_log. cbn [app]. reflexivity.
Qed.

(** X7.  A batch in which no token is supported always runs to its end,
    whatever the relay handle and the state of the relay: the log holds no
    call on the relay, every line gets its error receipt and the success
    toast is shown. *)
Theorem batch_without_supported_token_completes_offline
  (relay : option Relay) (w : Wallet) (tasks : string) (ts : list Task) :
  nsec w <> "" ->
  parse_tasks tasks = Return ts ->
  Forall (fun t => supported t = false) ts ->
  handleTransfer relay (Some w) tasks []
  = (Return tt,
     [setLoading true; setLoading false;
      download "receipts.json" (map rejected_receipt ts);
      setLoading false;
      toast_success "转账成功，交易收据已下载"]).
Proof.
  intros Hw Hp Hall. rewrite (handleTransfer_parsed relay w tasks ts Hw Hp).
  rewrite <- (app_nil_r ts) at 1.
  rewrite (bind_Return _ _ [setLoading true; setLoading false]
             [setLoading true; setLoading false] (map rejected_receipt ts)).
  - rewrite export_receipts_log. reflexivity.
  - rewrite (for_tasks_unsupported _ _ _ _ _ _ Hall). reflexivity.
Qed.

(* ---------------------------------------------------------------- *)
(** *** The loop, turn by turn *)

Lemma supported_task_eta (t : Task) :
  {| address := address t; amount := amount t; token := token t |} = t.
Proof. destruct t; reflexivity. Qed.

(** Every run of the loop is a sequence of turns. *)
Lemma for_tasks_turns (relay : option Relay) (w : Wallet) (ts : list Task)
  (receipts : list Receipt) (log log' : Log) (o : outcome (list Receipt)) :
  for_tasks relay w ts receipts log = (o, log') ->
  exists mid, log' = (log ++ mid)%list /\ turns relay w ts log (throws o) mid.
Proof.
  revert receipts log. induction ts as [|t ts IH]; intros receipts log H.
  - cbn [for_tasks] in H. unfold ret in H. injection H as <- <-.
    exists []. rewrite app_nil_r. split; [reflexivity | constructor].
  - cbn [for_tasks] in H. fold (supported t) in H.
    destruct (supported t) eqn:Ht; cbn [negb] in H.
    + unfold bind in H.
      destruct (transfer_cases relay w t log)
        as [[Hr Hc]|[(e & Hr & Hc)|(pre & rejected & Hr & Hpre & Hc)]];
        cbv zeta in Hc; rewrite Hc in H.
      * apply IH in H as (mid & -> & Hturns). eexists. rewrite <- app_assoc.
        split; [reflexivity|]. eapply turns_next; [|exact Hturns].
        apply turn_no_relay; assumption.
      * injection H as <- <-. eexists. split; [reflexivity|].
        apply turns_abort, turn_connect_rejected; assumption.
      * destruct rejected as [e|].
        -- injection H as <- <-. eexists. split; [reflexivity|].
           apply turns_abort, turn_publish_rejected; assumption.
        -- apply IH in H as (mid & -> & Hturns).
           exists ((pre ++ [relay_publish (event_of_task w t (log ++ pre)%list) None])
                     ++ mid)%list.
           split; [rewrite <- !app_assoc; reflexivity|].
           eapply turns_next; [apply turn_published; assumption | exact Hturns].
    + apply IH in H as (mid & -> & Hturns). exists ([] ++ mid)%list.
      split; [reflexivity|]. eapply turns_next; [apply turn_unsupported, Ht|].
      rewrite app_nil_r. exact Hturns.
Qed.

Lemma turn_actions (relay : option Relay) (w : Wallet) (t : Task) (log seg : Log)
  (aborted : bool) :
  turn relay w t log aborted seg ->
  Forall (fun a => is_loop_action a = true) seg
  /\ (forall a, In a seg -> is_relay_call a = true -> relay <> None /\ supported t = true)
  /\ (forall ev r, In (relay_publish ev r) seg ->
        exists log1, supported t = true /\ ev = event_of_task w t log1)
  /\ (length (filter is_connect seg) <= if supported t then 1 else 0)%nat
  /\ (length (filter is_publish seg) <= if supported t then 1 else 0)%nat
  /\ length (filter is_rejected_call seg) = (if aborted then 1 else 0)%nat
  /\ (aborted = false -> relay <> None ->
      length (filter is_publish seg) = if supported t then 1 else 0)%nat.
Proof.
  intros H.
  destruct H as [Ht|Ht Hr|e Ht Hr|pre Ht Hr [->| ->]|pre e Ht Hr [->| ->]];
    rewrite Ht; cbn [app filter is_connect is_publish is_rejected_call length];
    (split; [repeat constructor|]);
    (split; [intros a Hin Hcall; cbn [In] in Hin;
             repeat (destruct Hin as [<-|Hin]; [try discriminate Hcall; auto|]);
             destruct Hin|]);
    (split; [intros ev r Hin; cbn [In] in Hin;
             repeat (destruct Hin as [Hin|Hin];
                     [try discriminate Hin; injection Hin as <- _;
                      eexists; split; reflexivity|]);
             destruct Hin|]);
    repeat split; try lia; try reflexivity; try congruence; try discriminate.
Qed.

Lemma filter_length_app {A : Type} (p : A -> bool) (l1 l2 : list A) :
  length (filter p (l1 ++ l2)) = (length (filter p l1) + length (filter p l2))%nat.
Proof. rewrite filter_app, length_app. reflexivity. Qed.

(** What a sequence of turns adds to the log. *)
Lemma turns_actions (relay : option Relay) (w : Wallet) (ts : list Task)
  (log mid : Log) (aborted : bool) :
  turns relay w ts log aborted mid ->
  Forall (fun a => is_loop_action a = true) mid
  /\ (forall a, In a mid -> is_relay_call a = true ->
        relay <> None /\ existsb supported ts = true)
  /\ (forall ev r, In (relay_publish ev r) mid ->
        exists t log1, In t ts /\ supported t = true /\ ev = event_of_task w t log1)
  /\ (length (filter is_connect mid) <= length (filter supported ts))%nat
  /\ (length (filter is_publish mid) <= length (filter supported ts))%nat
  /\ length (filter is_rejected_call mid) = (if aborted then 1 else 0)%nat
  /\ (aborted = false -> relay <> None ->
      length (filter is_publish mid) = length (filter supported ts)).
Proof.
  induction 1 as [log|t ts log seg mid aborted Hturn Hturns IH|t ts log seg Hturn].
  - cbn. repeat split; try constructor; try lia; intros; contradiction.
  - destruct (turn_actions _ _ _ _ _ _ Hturn) as (A1 & A2 & A3 & A4 & A5 & A6 & A7).
    destruct IH as (B1 & B2 & B3 & B4 & B5 & B6 & B7).
    rewrite !filter_length_app. cbn [filter existsb].
    split; [apply Forall_app; split; assumption|].
    split; [|split; [|split; [|split; [|split]]]].
    + intros a Hin Hcall. apply in_app_or in Hin as [Hin|Hin].
      * destruct (A2 a Hin Hcall) as [Hr Ht]. rewrite Ht. split; [exact Hr | reflexivity].
      * destruct (B2 a Hin Hcall) as [Hr Hex]. rewrite Hex, orb_true_r.
        split; [exact Hr | reflexivity].
    + intros ev r Hin. apply in_app_or in Hin as [Hin|Hin].
      * destruct (A3 ev r Hin) as (log1 & Ht & Hev).
        exists t, log1. split; [left; reflexivity | split; assumption].
      * destruct (B3 ev r Hin) as (t' & log1 & Hin' & Ht & Hev).
        exists t', log1. split; [right; exact Hin' | split; assumption].
    + destruct (supported t); cbn [length]; lia.
    + destruct (supported t); cbn [length]; lia.
    + rewrite A6, B6. reflexivity.
    + intros Hab Hr. rewrite (A7 eq_refl Hr), (B7 Hab Hr).
      destruct (supported t); reflexivity.
  - destruct (turn_actions _ _ _ _ _ _ Hturn) as (A1 & A2 & A3 & A4 & A5 & A6 & A7).
    cbn [filter existsb].
    split; [exact A1|]. split; [|split; [|split; [|split; [|split]]]].
    + intros a Hin Hcall. destruct (A2 a Hin Hcall) as [Hr Ht]. rewrite Ht.
      split; [exact Hr | reflexivity].
    + intros ev r Hin. destruct (A3 ev r Hin) as (log1 & Ht & Hev).
      exists t, log1. split; [left; reflexivity | split; assumption].
    + destruct (supported t); cbn [length]; lia.
    + destruct (supported t); cbn [length]; lia.
    + exact A6.
    + discriminate.
Qed.

(* ---------------------------------------------------------------- *)
(** *** Whole runs *)

(** A run after a successful parse: the turns of the loop between the two
    loading-flag updates and, unless a turn threw, the export. *)
Lemma handleTransfer_turns (relay : option Relay) (w : Wallet) (tasks : string)
  (ts : list Task) :
  nsec w <> "" ->
  parse_tasks tasks = Return ts ->
  exists mid o,
    turns relay w ts [setLoading true; setLoading false] (throws o) mid
    /\ handleTransfer relay (Some w) tasks []
       = match o with
         | Return receipts =>
             (Return tt,
              ([setLoading true; setLoading false] ++ mid
                 ++ [download "receipts.json" receipts; setLoading false;
                     toast_success "转账成功，交易收据已下载"])%list)
         | Throw e => (Throw e, ([setLoading true; setLoading false] ++ mid)%list)
         end.
Proof.
  intros Hw Hp. rewrite (handleTransfer_parsed relay w tasks ts Hw Hp).
  destruct (for_tasks relay w ts [] [setLoading true; setLoading false])
    as [o log'] eqn:Eloop.
  destruct (for_tasks_turns _ _ _ _ _ _ _ Eloop) as (mid & -> & Hturns).
  exists mid, o. split; [exact Hturns|].
  destruct o as [receipts|e].
  - rewrite (bind_Return _ _ _ _ _ Eloop), export_receipts_log, <- app_assoc.
    reflexivity.
  - apply (bind_Throw _ _ _ _ _ Eloop).
Qed.

(** X8.  No call on the relay is made twice for a task.  In every run that
    got past the parse there are at most as many connects, and at most as
    many publishes, as there are tasks with a supported token; one call was
    rejected when the run ended in an error and none otherwise; and a run
    that comes to its end with a relay handle has published once for each
    such task. *)
Theorem no_call_on_the_relay_is_repeated
  (relay : option Relay) (w : Wallet) (tasks : string) (ts : list Task) :
  nsec w <> "" ->
  parse_tasks tasks = Return ts ->
  let run := handleTransfer relay (Some w) tasks [] in
  let n := length (filter supported ts) in
  (length (filter is_connect (snd run)) <= n)%nat
  /\ (length (filter is_publish (snd run)) <= n)%nat
  /\ length (filter is_rejected_call (snd run)) = (if throws (fst run) then 1 else 0)%nat
  /\ (throws (fst run) = false -> relay <> None ->
      length (filter is_publish (snd run)) = n).
Proof.
  intros Hw Hp run n. subst run n.
  destruct (handleTransfer_turns relay w tasks ts Hw Hp) as (mid & o & Hturns & ->).
  destruct (turns_actions _ _ _ _ _ _ Hturns) as (_ & _ & _ & A4 & A5 & A6 & A7).
  destruct o as [receipts|e]; cbn [fst snd throws] in *;
    rewrite ?filter_length_app;
    cbn [filter is_connect is_publish is_rejected_call length];
    rewrite ?Nat.add_0_r; repeat split; assumption.
Qed.

(** X9.  Whatever is published was built for a task of the text with a
    supported token: every event handed to the relay, in any run and
    whether its publish resolved or not, is the finalized event of kind 4,
    tagged for [LNFI_SEND_ADDR], whose content is the encryption of that
    task's transfer message under the wallet's key. *)
Theorem every_published_event_is_for_a_supported_task
  (relay : option Relay) (w : Wallet) (tasks : string)
  (event : VerifiedEvent) (rejected : option exn) :
  In (relay_publish event rejected) (snd (handleTransfer relay (Some w) tasks [])) ->
  exists ts t log1,
    parse_tasks tasks = Return ts
    /\ In t ts
    /\ JS.includes SUPPORTED_TOKENS (token t) = true
    /\ event
       = finalizeEvent
           {| content := nip04_encrypt env log1 (privateKey w) LNFI_SEND_ADDR
                           ("transfer " ++ JS.Number_toString large_digits (amount t)
                              ++ " " ++ token t ++ " to " ++ address t);
              tags := [["p"; LNFI_SEND_ADDR]; ["r"; "json"]];
              kind := 4;
              created_at := (Date_now env log1 / 1000)%Z |}
           (privateKey w).
Proof.
  intros Hin. destruct (String.eqb_spec (nsec w) "") as [He|Hw].
  { unfold handleTransfer in Hin. rewrite He in Hin. cbn in Hin.
    destruct Hin as [Hin|[]]. discriminate Hin. }
  destruct (parse_tasks tasks) as [ts|e] eqn:Hp.
  - destruct (handleTransfer_turns relay w tasks ts Hw Hp) as (mid & o & Hturns & Hrun).
    rewrite Hrun in Hin.
    destruct (turns_actions _ _ _ _ _ _ Hturns) as (_ & _ & A3 & _).
    assert (In (relay_publish event rejected) mid) as Hmid.
    { destruct o as [receipts|e]; cbn [snd app] in Hin;
        destruct Hin as [Hin|[Hin|Hin]]; try discriminate Hin; [|exact Hin].
      apply in_app_or in Hin as [Hin|Hin]; [exact Hin|].
      destruct Hin as [Hin|[Hin|[Hin|[]]]]; discriminate Hin. }
    destruct (A3 _ _ Hmid) as (t & log1 & Ht & Hs & Hev).
    exists ts, t, log1. repeat split; assumption.
  - rewrite (handleTransfer_parse_failed relay w tasks e Hw Hp) in Hin.
    cbn [snd] in Hin. destruct Hin as [Hin|[Hin|[Hin|[Hin|[]]]]]; discriminate Hin.
Qed.

(** X10.  The relay is called only when everything is in place: if the
    log of a run holds a connect or a publish, then a wallet with a
    non-empty [nsec] was loaded, there was a relay handle, the text parsed
    and one of its tasks has a supported token. *)
Theorem relay_is_called_only_with_wallet_handle_and_supported_task
  (relay : option Relay) (wallet : option Wallet) (tasks : string) (a : Action) :
  In a (snd (handleTransfer relay wallet tasks [])) ->
  is_relay_call a = true ->
  exists w r ts,
    wallet = Some w /\ nsec w <> "" /\ relay = Some r
    /\ parse_tasks tasks = Return ts
    /\ existsb (fun t => JS.includes SUPPORTED_TOKENS (token t)) ts = true.
Proof.
  intros Hin Hcall. destruct wallet as [w|].
  2:{ cbn in Hin. destruct Hin as [<-|[]]. discriminate Hcall. }
  destruct (String.eqb_spec (nsec w) "") as [He|Hw].
  { unfold handleTransfer in Hin. rewrite He in Hin. cbn in Hin.
    destruct Hin as [<-|[]]. discriminate Hcall. }
  destruct (parse_tasks tasks) as [ts|e] eqn:Hp.
  - destruct (handleTransfer_turns relay w tasks ts Hw Hp) as (mid & o & Hturns & Hrun).
    rewrite Hrun in Hin.
    destruct (turns_actions _ _ _ _ _ _ Hturns) as (_ & A2 & _).
    assert (In a mid) as Hmid.
    { destruct o as [receipts|e]; cbn [snd app] in Hin;
        destruct Hin as [<-|[<-|Hin]]; try discriminate Hcall; [|exact Hin].
      apply in_app_or in Hin as [Hin|Hin]; [exact Hin|].
      destruct Hin as [<-|[<-|[<-|[]]]]; discriminate Hcall. }
    destruct (A2 a Hmid Hcall) as [Hr Hex].
    destruct relay as [r|]; [|congruence].
    exists w, r, ts. repeat split; assumption.
  - rewrite (handleTransfer_parse_failed relay w tasks e Hw Hp) in Hin.
    cbn [snd] in Hin. destruct Hin as [<-|[<-|[<-|[<-|[]]]]]; discriminate Hcall.
Qed.

(** X13.  The loading flag is down during the transfers.  In every run
    with a loaded wallet the flag goes up first and comes down before the
    loop: no call on the relay and no export happens while it is up, and it
    is not raised again. *)
Theorem loading_flag_is_down_during_the_transfers
  (relay : option Relay) (w : Wallet) (tasks : string) :
  nsec w <> "" ->
  exists pre rest,
    snd (handleTransfer relay (Some w) tasks [])
    = (setLoading true :: pre ++ setLoading false :: rest)%list
    /\ Forall (fun a => is_relay_call a = false /\ is_download a = false) pre
    /\ Forall (fun a => a <> setLoading true) rest.
Proof.
  intros Hw. destruct (parse_tasks tasks) as [ts|e] eqn:Hp.
  - destruct (handleTransfer_turns relay w tasks ts Hw Hp) as (mid & o & Hturns & ->).
    destruct (turns_actions _ _ _ _ _ _ Hturns) as (A1 & _).
    assert (Forall (fun a => a <> setLoading true) mid) as Hmid.
    { eapply Forall_impl; [|exact A1]. intros a Ha ->. discriminate Ha. }
    exists []. destruct o as [receipts|e']; cbn [snd app]; eexists;
      (split; [reflexivity|]); (split; [constructor|]); [|exact Hmid].
    apply Forall_app. split; [exact Hmid|]. repeat constructor; discriminate.
  - rewrite (handleTransfer_parse_failed relay w tasks e Hw Hp). cbn [snd].
    exists [console_error "Parse tasks error: " e; toast_error "转账地址格式错误"], [].
    split; [reflexivity|]. split; repeat constructor.
Qed.

(** X11.  A line with no amount is sent all the same.  For a one-line
    text [a-t] whose token is supported, on a connected relay that takes
    the publish, the amount of the task is NaN, the message that is
    encrypted reads "transfer NaN <token> to <address>", and the receipt
    carries the id of the published event. *)
Theorem line_without_amount_is_sent_as_NaN
  (r : Relay) (w : Wallet) (a t : string) :
  nsec w <> "" ->
  occurs "-" a = false -> occurs "-" t = false ->
  occurs LF a = false -> occurs LF t = false ->
  JS.includes SUPPORTED_TOKENS (toUpperCase t) = true ->
  relay_connected env [setLoading true; setLoading false] = true ->
  let event :=
    finalizeEvent
      {| content := nip04_encrypt env [setLoading true; setLoading false] (privateKey w)
                      LNFI_SEND_ADDR ("transfer NaN " ++ toUpperCase t ++ " to " ++ a);
         tags := [["p"; LNFI_SEND_ADDR]; ["r"; "json"]];
         kind := 4;
         created_at := (Date_now env [setLoading true; setLoading false] / 1000)%Z |}
      (privateKey w) in
  publish_rejects env [setLoading true; setLoading false] event = None ->
  handleTransfer (Some r) (Some w) (a ++ "-" ++ t) []
  = (Return tt,
     [setLoading true; setLoading false;
      relay_publish event None;
      download "receipts.json"
        [{| task := {| address := a; amount := JS.NaN; token := toUpperCase t |};
            eventId := Present (id event);
            error := Absent |}];
      setLoading false;
      toast_success "转账成功，交易收据已下载"]).
Proof.
  intros Hw Ha Ht HaL HtL Hsup Hc event Hpub.
  set (parsed := {| address := a; amount := JS.NaN; token := toUpperCase t |}).
  assert (parse_tasks (a ++ "-" ++ t) = Return [parsed]) as Hp.
  { unfold parse_tasks. rewrite (split_without_separator LF).
    - cbn [map_lines]. rewrite (parse_line_fields _ a t []); [reflexivity|].
      rewrite (split_hyphen a t Ha), (split_without_separator "-" t Ht). reflexivity.
    - rewrite occurs_app, HaL. cbn [orb append occurs]. rewrite HtL. reflexivity. }
  rewrite (handleTransfer_parsed (Some r) w _ _ Hw Hp).
  cbn [for_tasks token amount address parsed]. rewrite Hsup. cbn [negb].
  pose proof (transfer_publishes r (toUpperCase t) JS.NaN a (privateKey w)
                [setLoading true; setLoading false] (or_introl Hc)) as Htr.
  cbv zeta in Htr. unfold after_connect in Htr. rewrite Hc in Htr.
  change (transfer_message (toUpperCase t) JS.NaN a)
    with ("transfer NaN " ++ toUpperCase t ++ " to " ++ a) in Htr.
  fold event in Htr. rewrite Hpub in Htr.
  unfold bind at 1. rewrite (bind_Return _ _ _ _ _ Htr).
  cbn [for_tasks]. unfold ret. rewrite export_receipts_log. reflexivity.
Qed.

(* ---------------------------------------------------------------- *)
(** *** Connecting the relay *)



(* ---------------------------------------------------------------- *)
(** *** Loading the wallet *)

Lemma derive_path_at_index_0 : JS.replace "index" "0" DERIVE_PATH = "m/44'/1237'/0'/0/0".
Proof. reflexivity. Qed.

(** X16.  [handleLoadWallet] never throws, and it replaces the wallet only
    by one that was derived in full: the mnemonic is not empty and passed
    [validateMnemonic], the seed, the root and the child at the path
    m/44'/1237'/0'/0/0 were obtained, and the wallet holds the child's
    private key with its two encodings.  An empty mnemonic changes nothing
    and shows nothing; an invalid one shows one toast and changes
    nothing. *)
Theorem wallet_is_replaced_only_by_a_fully_derived_one
  (mnemonic : string) (wallet : option Wallet) (log : Log) :
  exists wallet' mid,
    handleLoadWallet mnemonic wallet log = (Return wallet', (log ++ mid)%list)
    /\ (wallet' = wallet
        \/ exists seed root child nsec' pub npub',
             mnemonic <> ""
             /\ validateMnemonic mnemonic = true
             /\ mnemonicToSeedSync mnemonic = Return seed
             /\ fromSeed seed = Return root
             /\ derivePath root "m/44'/1237'/0'/0/0" = Return child
             /\ nsecEncode (node_privateKey child) = Return nsec'
             /\ getPublicKey (node_privateKey child) = Return pub
             /\ npubEncode pub = Return npub'
             /\ wallet' = Some {| nsec := nsec'; npub := npub';
                                  privateKey := node_privateKey child |}
             /\ mid = [toast_success "钱包加载成功"])
    /\ (mnemonic = "" -> wallet' = wallet /\ mid = [])
    /\ (mnemonic <> "" -> validateMnemonic mnemonic = false ->
        wallet' = wallet /\ mid = [toast_error "无效的助记词"]).
Proof.
  unfold handleLoadWallet. rewrite derive_path_at_index_0.
  destruct (String.eqb_spec mnemonic "") as [He|Hne].
  { exists wallet, []. unfold ret. rewrite app_nil_r.
    repeat split; auto; congruence. }
  destruct (validateMnemonic mnemonic) eqn:Hv; cbn [negb].
  2:{ exists wallet, [toast_error "无效的助记词"].
      repeat split; auto; congruence. }
  cbv beta iota zeta delta [try_catch_finally bind lift act ret].
  destruct (mnemonicToSeedSync mnemonic) as [seed|e1] eqn:H1.
  2:{ eexists. eexists. rewrite <- !app_assoc.
      split; [reflexivity|]. split; [left; reflexivity|]. split; congruence. }
  destruct (fromSeed seed) as [root|e2] eqn:H2.
  2:{ eexists. eexists. rewrite <- !app_assoc.
      split; [reflexivity|]. split; [left; reflexivity|]. split; congruence. }
  destruct (derivePath root "m/44'/1237'/0'/0/0") as [child|e3] eqn:H3.
  2:{ eexists. eexists. rewrite <- !app_assoc.
      split; [reflexivity|]. split; [left; reflexivity|]. split; congruence. }
  destruct (nsecEncode (node_privateKey child)) as [nsec'|e4] eqn:H4.
  2:{ eexists. eexists. rewrite <- !app_assoc.
      split; [reflexivity|]. split; [left; reflexivity|]. split; congruence. }
  destruct (getPublicKey (node_privateKey child)) as [pub|e5] eqn:H5.
  2:{ eexists. eexists. rewrite <- !app_assoc.
      split; [reflexivity|]. split; [left; reflexivity|]. split; congruence. }
  destruct (npubEncode pub) as [npub'|e6] eqn:H6.
  2:{ eexists. eexists. rewrite <- !app_assoc.
      split; [reflexivity|]. split; [left; reflexivity|]. split; congruence. }
  eexists. eexists. split; [reflexivity|]. split; [|split; congruence].
  right. exists seed, root, child, nsec', pub, npub'. repeat split; assumption.
Qed.

(* ---------------------------------------------------------------- *)
(** *** From the mount to a batch *)

Lemma handleTransfer_parsed_at (relay : option Relay) (w : Wallet) (tasks : string)
  (ts : list Task) (log : Log) :
  nsec w <> "" ->
  parse_tasks tasks = Return ts ->
  handleTransfer relay (Some w) tasks log =
    bind (for_tasks relay w ts []) export_receipts
      (log ++ [setLoading true; setLoading false])%list.
Proof.
  intros Hw Hp. pose proof (parse_tasks_not_nil tasks ts Hp) as Hne.
  unfold handleTransfer. rewrite (wallet_loaded w Hw).
  unfold bind at 1 2, try_catch_finally, lift, act, ret. rewrite Hp.
  unfold bind at 1. rewrite <- app_assoc. cbn [app].
  destruct ts as [|t ts']; [congruence | reflexivity].
Qed.

(** X15.  A rejected first connect leaves the application without a relay
    handle, and the batch that follows is reported as a success although
    nothing is sent.  When the connect of the mount effect is rejected, the
    wallet loads and the text parses, the session runs to its end and its
    log is: the failed connect with its console line and toast, the wallet
    toast, then the batch with one "connect the relay first" toast per
    supported task, the export of receipts with neither event id nor error
    for those tasks, and the success toast; no publish is made. *)
Theorem rejected_first_connect_leaves_the_batch_unsent
  (mnemonic tasks : string) (ts : list Task) (e : exn)
  (seed : Uint8Array) (root child : BIP32Node) (nsec' pub npub' : string) :
  connect_rejects env [] = Some e ->
  mnemonic <> "" ->
  validateMnemonic mnemonic = true ->
  mnemonicToSeedSync mnemonic = Return seed ->
  fromSeed seed = Return root ->
  derivePath root "m/44'/1237'/0'/0/0" = Return child ->
  nsecEncode (node_privateKey child) = Return nsec' ->
  getPublicKey (node_privateKey child) = Return pub ->
  npubEncode pub = Return npub' ->
  nsec' <> "" ->
  parse_tasks tasks = Return ts ->
  session mnemonic tasks []
  = (Return tt,
     ([relay_connect (Some e);
       console_error "Connect relay error: " e;
       toast_error "连接 relay 失败";
       toast_success "钱包加载成功";
       setLoading true; setLoading false]
        ++ map (fun _ => toast_error "请先连接 relay") (filter supported ts)
        ++ [download "receipts.json" (map receipt_without_relay ts);
            setLoading false;
            toast_success "转账成功，交易收据已下载"])%list).
Proof.
  intros He Hm Hv H1 H2 H3 H4 H5 H6 Hn Hp. unfold session.
  assert (handleConnectRelay None []
          = (Return None,
             [relay_connect (Some e); console_error "Connect relay error: " e;
              toast_error "连接 relay 失败"])) as Hconnect.
  { cbv beta iota zeta delta
      [handleConnectRelay bind history try_catch_finally connect act throw ret].
    rewrite He. reflexivity. }
  rewrite (bind_Return _ _ _ _ _ Hconnect).
  set (w := {| nsec := nsec'; npub := npub'; privateKey := node_privateKey child |}).
  assert (forall log,
             handleLoadWallet mnemonic None log
             = (Return (Some w), (log ++ [toast_success "钱包加载成功"])%list)) as Hload.
  { intros log. unfold handleLoadWallet. rewrite derive_path_at_index_0.
    rewrite (proj2 (String.eqb_neq mnemonic "") Hm), Hv. cbn [negb].
    cbv beta iota zeta delta [try_catch_finally bind lift act ret].
    rewrite H1, H2, H3, H4, H5, H6. reflexivity. }
  rewrite (bind_Return _ _ _ _ _ (Hload _)).
  rewrite (handleTransfer_parsed_at None w tasks ts _ Hn Hp).
  rewrite (bind_Return _ _ _ _ _ (for_tasks_without_relay w ts [] _)).
  rewrite export_receipts_log. cbn [app]. reflexivity.
Qed.

(* ---------------------------------------------------------------- *)
(** *** Addresses, and runs that end in an error *)

Lemma split_field_keeps_absent (sep c : ascii) (s f : string) :
  occurs c s = false -> In f (JS.split sep s) -> occurs c f = false.
Proof.
  revert f. induction s as [|c' rest IH]; intros f Hs Hin; cbn [JS.split] in Hin.
  - destruct Hin as [<-|[]]. reflexivity.
  - cbn [occurs] in Hs. apply orb_false_iff in Hs as [Hc Hrest].
    destruct (Ascii.eqb c' sep).
    + destruct Hin as [<-|Hin]; [reflexivity | apply (IH f Hrest Hin)].
    + pose proof (split_not_nil sep rest) as Hne.
      destruct (JS.split sep rest) as [|f0 fs]; [congruence|].
      destruct Hin as [<-|Hin].
      * cbn [occurs]. rewrite Hc. apply (IH f0 Hrest). left. reflexivity.
      * apply (IH f Hrest). right. exact Hin.
Qed.

Lemma map_lines_In (lines : list string) (ts : list Task) (t : Task) :
  map_lines lines = Return ts -> In t ts ->
  exists line, In line lines /\ parse_line line = Return t.
Proof.
  revert ts. induction lines as [|l rest IH]; intros ts H Hin; cbn [map_lines] in H.
  - injection H as <-. destruct Hin.
  - destruct (parse_line l) as [t0|] eqn:El; [|discriminate].
    destruct (map_lines rest) as [ts'|] eqn:Er; [|discriminate].
    injection H as <-. destruct Hin as [<-|Hin].
    + exists l. split; [left; reflexivity | exact El].
    + destruct (IH ts' eq_refl Hin) as (line & Hl & Hp).
      exists line. split; [right; exact Hl | exact Hp].
Qed.

(** X17.  No parsed address holds a hyphen or a line feed: the address of
    every task of a successful parse is the text of a line up to its first
    hyphen, so an address written with a hyphen never reaches a task
    whole. *)
Theorem parsed_address_has_no_hyphen_and_no_line_feed
  (tasks : string) (ts : list Task) (t : Task) :
  parse_tasks tasks = Return ts ->
  In t ts ->
  occurs "-" (address t) = false /\ occurs LF (address t) = false.
Proof.
  unfold parse_tasks. intros Hp Hin.
  destruct (map_lines_In _ _ _ Hp Hin) as (line & Hline & Hparse).
  pose proof (split_field_has_no_separator LF tasks line Hline) as HLF.
  unfold parse_line in Hparse.
  destruct (JS.split "-" line) as [|a [|tk rest]] eqn:Hs; try discriminate.
  injection Hparse as <-. cbn [address].
  assert (In a (JS.split "-" line)) as Ha by (rewrite Hs; left; reflexivity).
  split.
  - apply (split_field_has_no_separator "-" line a Ha).
  - apply (split_field_keeps_absent "-" LF line a HLF Ha).
Qed.

Lemma for_tasks_Throw_last (relay : option Relay) (w : Wallet) (ts : list Task)
  (receipts : list Receipt) (log log' : Log) (e : exn) :
  for_tasks relay w ts receipts log = (Throw e, log') ->
  exists log0 a,
    log' = (log0 ++ [a])%list
    /\ (a = relay_connect (Some e) \/ exists event, a = relay_publish event (Some e)).
Proof.
  revert receipts log. induction ts as [|t ts IH]; intros receipts log H.
  - discriminate H.
  - cbn [for_tasks] in H. destruct (negb (JS.includes SUPPORTED_TOKENS (token t))).
    + apply (IH _ _ H).
    + unfold bind in H.
      destruct (transfer_cases relay w t log)
        as [[Hr Hc]|[(e' & Hr & Hc)|(pre & rejected & Hr & Hpre & Hc)]];
        cbv zeta in Hc; rewrite Hc in H.
      * apply (IH _ _ H).
      * injection H as <- <-. exists log. eexists. split; [reflexivity|].
        left. reflexivity.
      * destruct rejected as [e'|].
        -- injection H as <- <-. exists (log ++ pre)%list. eexists.
           split; [rewrite <- app_assoc; reflexivity|]. right. eexists. reflexivity.
        -- apply (IH _ _ H).
Qed.

(** X18.  A run ends in an error only at a rejected call on the relay:
    whatever the wallet, the handle and the text, when [handleTransfer]
    throws [e] the last action of its log is a connect or a publish that
    was rejected with that very [e], and the log holds no export.  Nothing
    else makes a run throw; a parse failure and a missing wallet end in
    a toast. *)
Theorem run_throws_only_at_a_rejected_relay_call
  (relay : option Relay) (wallet : option Wallet) (tasks : string) (e : exn) (log : Log) :
  handleTransfer relay wallet tasks [] = (Throw e, log) ->
  exists log0 a,
    log = (log0 ++ [a])%list
    /\ (a = relay_connect (Some e) \/ exists event, a = relay_publish event (Some e))
    /\ Forall (fun a' => is_download a' = false) log.
Proof.
  intros Hrun. destruct wallet as [w|]; [|discriminate Hrun].
  destruct (String.eqb_spec (nsec w) "") as [He|Hw].
  { unfold handleTransfer in Hrun. rewrite He in Hrun. discriminate Hrun. }
  destruct (parse_tasks tasks) as [ts|e'] eqn:Hp.
  - rewrite (handleTransfer_parsed relay w tasks ts Hw Hp) in Hrun.
    unfold bind in Hrun.
    destruct (for_tasks relay w ts [] [setLoading true; setLoading false])
      as [[receipts|e'] log1] eqn:Eloop.
    + rewrite export_receipts_log in Hrun. discriminate Hrun.
    + injection Hrun as <- <-.
      destruct (for_tasks_Throw_last _ _ _ _ _ _ _ Eloop) as (log0 & a & Hlog & Ha).
      exists log0, a. split; [exact Hlog|]. split; [exact Ha|].
      apply for_tasks_log in Eloop as (mid & -> & Hq & _).
      apply Forall_app. split; [repeat constructor | exact Hq].
  - rewrite (handleTransfer_parse_failed relay w tasks e' Hw Hp) in Hrun.
    discriminate Hrun.
Qed.

End App.

(* ------------------------------------------------------------------ *)
(** ** The statements on concrete runs *)

Lemma unsupported_token_is_rejected_offline_witness :
  exists receipts log,
    for_tasks sample_digits sample_nip19_decode_data sample_finalizeEvent
      (sample_env true None None) (Some sample_relay) sample_wallet
      ([sample_task_1] ++ [sample_task_2])%list [] [setLoading true; setLoading false]
    = (Return (receipts ++ [rejected_receipt sample_task_2])%list, log)
    /\ handleTransfer ascii_toUpperCase sample_digits sample_nip19_decode_data
         sample_finalizeEvent (sample_env true None None) (Some sample_relay)
         (Some sample_wallet) sample_tasks []
       = bind (for_tasks sample_digits sample_nip19_decode_data sample_finalizeEvent
                 (sample_env true None None) (Some sample_relay) sample_wallet []
                 (receipts ++ [rejected_receipt sample_task_2])%list)
           export_receipts log.
Proof.
  eexists. eexists.
  apply (unsupported_token_is_rejected_offline ascii_toUpperCase sample_digits
           sample_nip19_decode_data sample_finalizeEvent (sample_env true None None)
           (Some sample_relay) sample_wallet sample_tasks [sample_task_1] [] sample_task_2).
  - discriminate.
  - vm_compute. reflexivity.
  - reflexivity.
  - cbv. reflexivity.
Defined.

Lemma throwing_line_aborts_the_whole_input_witness :
  parse_tasks ascii_toUpperCase ("a-sats-1" ++ String LF "onlyonefield") = Throw undefined_token
  /\ handleTransfer ascii_toUpperCase sample_digits sample_nip19_decode_data
       sample_finalizeEvent (sample_env true None None) (Some sample_relay)
       (Some sample_wallet) ("a-sats-1" ++ String LF "onlyonefield") []
     = (Return tt,
        [setLoading true;
         console_error "Parse tasks error: " undefined_token;
         toast_error "转账地址格式错误";
         setLoading false]).
Proof.
  apply (throwing_line_aborts_the_whole_input ascii_toUpperCase sample_digits
           sample_nip19_decode_data sample_finalizeEvent (sample_env true None None)
           (Some sample_relay) sample_wallet ("a-sats-1" ++ String LF "onlyonefield")
           "onlyonefield" undefined_token).
  - discriminate.
  - vm_compute. right. left. reflexivity.
  - reflexivity.
Defined.

Lemma supported_task_publishes_the_signed_instruction_witness :
  for_tasks sample_digits sample_nip19_decode_data sample_finalizeEvent
    (sample_env true None None) (Some sample_relay) sample_wallet [sample_task_1] [] []
  = (Return
       [{| task := sample_task_1;
           eventId := Present "id:enc:transfer 100 TREAT to npub1xyz";
           error := Absent |}],
     [relay_publish
        (sample_finalizeEvent
           {| content := "enc:transfer 100 TREAT to npub1xyz";
              tags := [["p"; "693d3f45b81c1f3557383fb955f3a8cb2c194c44ffba1e2f4566e678773b44f8"];
                       ["r"; "json"]];
              kind := 4;
              created_at := 1700000000 |}
           [Byte.x01])
        None]).
Proof.
  rewrite (supported_task_publishes_the_signed_instruction sample_digits
             sample_nip19_decode_data sample_finalizeEvent (sample_env true None None)
             sample_relay sample_wallet sample_task_1 [] [] []).
  - vm_compute. reflexivity.
  - reflexivity.
  - left. reflexivity.
  - reflexivity.
Defined.

Lemma rejected_publish_aborts_the_batch_witness :
  handleTransfer ascii_toUpperCase sample_digits sample_nip19_decode_data
    sample_finalizeEvent (sample_env true None (Some (Rejection "relay closed")))
    (Some sample_relay) (Some sample_wallet) ("a-sats-1" ++ String LF "b-sats-2") []
  = (Throw (Rejection "relay closed"),
     [setLoading true; setLoading false;
      relay_publish
        (sample_finalizeEvent
           {| content := "enc:transfer 1 SATS to a";
              tags := [["p"; "693d3f45b81c1f3557383fb955f3a8cb2c194c44ffba1e2f4566e678773b44f8"];
                       ["r"; "json"]];
              kind := 4;
              created_at := 1700000000 |}
           [Byte.x01])
        (Some (Rejection "relay closed"))]).
Proof.
  refine (proj1 (proj2
    (rejected_publish_aborts_the_batch ascii_toUpperCase sample_digits
       sample_nip19_decode_data sample_finalizeEvent
       (sample_env true None (Some (Rejection "relay closed")))
       sample_relay sample_wallet ("a-sats-1" ++ String LF "b-sats-2")
       []
       [{| address := "b"; amount := JS.Finite false 2; token := "SATS" |}]
       {| address := "a"; amount := JS.Finite false 1; token := "SATS" |}
       [] [setLoading true; setLoading false] (Rejection "relay closed")
       _ _ _ _ _ _))).
  - discriminate.
  - vm_compute. reflexivity.
  - reflexivity.
  - reflexivity.
  - left. reflexivity.
  - reflexivity.
Defined.

Lemma well_formed_text_parses_line_by_line_witness :
  parse_tasks ascii_toUpperCase ("npub1xyz-TREAT-100" ++ String LF "npub1abc-sats-50")
  = Return [{| address := "npub1xyz"; amount := JS.Finite false 100; token := "TREAT" |};
            {| address := "npub1abc"; amount := JS.Finite false 50; token := "SATS" |}].
Proof.
  destruct (well_formed_text_parses_line_by_line ascii_toUpperCase
              ("npub1xyz-TREAT-100" ++ String LF "npub1abc-sats-50")) as [Hparse _].
  - vm_compute. repeat constructor.
  - rewrite Hparse. vm_compute. reflexivity.
Defined.

Lemma fields_after_the_third_are_discarded_witness :
  parse_line ascii_toUpperCase "npub-1abc-SATS-100"
  = Return {| address := "npub"; amount := JS.NaN; token := "1ABC" |}.
Proof.
  refine (eq_trans (proj2 (proj2 (fields_after_the_third_are_discarded ascii_toUpperCase
                                    "npub" "1abc" "SATS" "100" eq_refl eq_refl eq_refl))) _).
  vm_compute. reflexivity.
Defined.

Lemma amount_is_whatever_parseInt_yields_witness :
  parse_line ascii_toUpperCase "addr-SATS-12abc"
  = Return {| address := "addr"; amount := JS.Finite false 12; token := "SATS" |}.
Proof.
  refine (eq_trans (proj1 (amount_is_whatever_parseInt_yields ascii_toUpperCase
                             "addr-SATS-12abc" "addr" "SATS" ["12abc"] [] [] [] []
                             eq_refl eq_refl eq_refl)) _).
  vm_compute. reflexivity.
Defined.

Lemma completed_batch_has_one_receipt_per_task_witness :
  exists receipts mid,
    [setLoading true; setLoading false;
     relay_publish
       (sample_finalizeEvent
          {| content := "enc:transfer 100 TREAT to npub1xyz";
             tags := [["p"; "693d3f45b81c1f3557383fb955f3a8cb2c194c44ffba1e2f4566e678773b44f8"];
                      ["r"; "json"]];
             kind := 4;
             created_at := 1700000000 |}
          [Byte.x01])
       None;
     download "receipts.json"
       [{| task := sample_task_1;
           eventId := Present "id:enc:transfer 100 TREAT to npub1xyz";
           error := Absent |};
        rejected_receipt sample_task_2];
     setLoading false;
     toast_success "转账成功，交易收据已下载"]
    = ([setLoading true; setLoading false] ++ mid
       ++ [download "receipts.json" receipts; setLoading false;
           toast_success "转账成功，交易收据已下载"])%list
    /\ quiet mid
    /\ map task receipts = [sample_task_1; sample_task_2]
    /\ length receipts = length [sample_task_1; sample_task_2]
    /\ Forall2 (fun line r => parse_line ascii_toUpperCase line = Return (task r))
         (JS.split LF sample_tasks) receipts
    /\ receipt_ids receipts = published_ids mid.
Proof.
  apply (completed_batch_has_one_receipt_per_task ascii_toUpperCase sample_digits
           sample_nip19_decode_data sample_finalizeEvent (sample_env true None None)
           (Some sample_relay) sample_wallet sample_tasks).
  - discriminate.
  - vm_compute. reflexivity.
  - vm_compute. reflexivity.
Defined.

Lemma failed_connect_at_first_supported_task_aborts_witness :
  handleTransfer ascii_toUpperCase sample_digits sample_nip19_decode_data
    sample_finalizeEvent (sample_env false (Some (Rejection "relay down")) None)
    (Some sample_relay) (Some sample_wallet) ("a-FOO-1" ++ String LF "b-sats-2") []
  = (Throw (Rejection "relay down"),
     [setLoading true; setLoading false; relay_connect (Some (Rejection "relay down"))]).
Proof.
  refine (proj2
    (failed_connect_at_first_supported_task_aborts ascii_toUpperCase sample_digits
       sample_nip19_decode_data sample_finalizeEvent
       (sample_env false (Some (Rejection "relay down")) None)
       sample_relay sample_wallet ("a-FOO-1" ++ String LF "b-sats-2")
       [{| address := "a"; amount := JS.Finite false 1; token := "FOO" |}]
       []
       {| address := "b"; amount := JS.Finite false 2; token := "SATS" |}
       (Rejection "relay down") _ _ _ _ _ _)).
  - discriminate.
  - vm_compute. reflexivity.
  - repeat constructor.
  - reflexivity.
  - reflexivity.
  - reflexivity.
Defined.

(** *** Where the code departs from a statement *)

(** C2, as worded, fails on a batch with no supported token: the relay is
    down and would reject a connect, yet no connect is made and the run
    exports a receipt. *)
Lemma connect_before_any_task_fails :
  ~ connect_before_any_task ascii_toUpperCase sample_digits sample_nip19_decode_data
      sample_finalizeEvent (sample_env false (Some (Rejection "relay down")) None)
      (Some sample_relay) sample_wallet "a-FOO-1".
Proof.
  intros H.
  destruct (H (Rejection "relay down") (fun _ => eq_refl) (fun _ => eq_refl)) as [Hthrow _].
  vm_compute in Hthrow. discriminate Hthrow.
Qed.

(** C7, as worded, fails when a publish is rejected: the text parses to
    one task and no receipt is exported. *)
Lemma receipt_per_parsed_task_fails :
  ~ receipt_per_parsed_task ascii_toUpperCase sample_digits sample_nip19_decode_data
      sample_finalizeEvent (sample_env true None (Some (Rejection "relay closed")))
      (Some sample_relay) sample_wallet "a-SATS-1".
Proof.
  intros H.
  destruct (H [{| address := "a"; amount := JS.Finite false 1; token := "SATS" |}] eq_refl)
    as (receipts & Hin & _).
  vm_compute in Hin.
  destruct Hin as [Hin|[Hin|[Hin|[]]]]; discriminate Hin.
Qed.

(** C9, as worded, fails on a third field that starts with digits: it is
    not a base-10 literal and the amount is 12, not NaN. *)
Lemma malformed_amount_is_NaN_fails :
  ~ malformed_amount_is_NaN ascii_toUpperCase "addr-SATS-12abc".
Proof.
  intros H.
  destruct (H "addr" "SATS" "12abc" [] eq_refl eq_refl) as (parsed & Hp & Ha).
  vm_compute in Hp. injection Hp as <-. discriminate Ha.
Qed.

(** C1.  Without a relay handle the run still comes to its end: [transfer]
    shows its error toast and returns [undefined], and the receipt that is
    exported for a task with a supported token has [eventId] undefined and
    no [error], so neither field is written. *)
Theorem missing_relay_exports_receipt_without_outcome :
  handleTransfer ascii_toUpperCase sample_digits sample_nip19_decode_data
    sample_finalizeEvent (sample_env false None None) None (Some sample_wallet)
    "npub1xyz-SATS-100" []
  = (Return tt,
     [setLoading true; setLoading false;
      toast_error "请先连接 relay";
      download "receipts.json"
        [{| task := {| address := "npub1xyz"; amount := JS.Finite false 100; token := "SATS" |};
            eventId := Undefined;
            error := Absent |}];
      setLoading false;
      toast_success "转账成功，交易收据已下载"])
  /\ ~ receipts_have_one_outcome ascii_toUpperCase sample_digits sample_nip19_decode_data
         sample_finalizeEvent (sample_env false None None) None sample_wallet
         "npub1xyz-SATS-100".
Proof.
  split; [vm_compute; reflexivity|].
  intros H.
  specialize (H "receipts.json"
                [{| task := {| address := "npub1xyz"; amount := JS.Finite false 100;
                               token := "SATS" |};
                    eventId := Undefined; error := Absent |}]
                {| task := {| address := "npub1xyz"; amount := JS.Finite false 100;
                              token := "SATS" |};
                   eventId := Undefined; error := Absent |}).
  assert (exactly_one_outcome
            {| task := {| address := "npub1xyz"; amount := JS.Finite false 100;
                          token := "SATS" |};
               eventId := Undefined; error := Absent |} = true) as Hbad.
  { apply H; [vm_compute | left; reflexivity].
    right. right. right. left. reflexivity. }
  discriminate Hbad.
Qed.

(** *** The built-ins on concrete inputs *)

Example split_three_fields :
  JS.split "-" "npub1xyz-TREAT-100" = ["npub1xyz"; "TREAT"; "100"].
Proof. reflexivity. Qed.

Example split_empty_text : JS.split LF "" = [""].
Proof. reflexivity. Qed.

Example parseInt_hex_prefix : JS.parseInt (Some "0x1F") = JS.Finite false 31.
Proof. vm_compute. reflexivity. Qed.

Example parseInt_hex_prefix_alone : JS.parseInt (Some "0xg") = JS.NaN.
Proof. vm_compute. reflexivity. Qed.

Example parseInt_leading_space_and_sign : JS.parseInt (Some "  +12abc") = JS.Finite false 12.
Proof. vm_compute. reflexivity. Qed.

Example parseInt_undefined : JS.parseInt None = JS.NaN.
Proof. vm_compute. reflexivity. Qed.

Example parseInt_rounds_above_2_53 :
  JS.parseInt (Some "9007199254740993") = JS.Finite false 9007199254740992.
Proof. vm_compute. reflexivity. Qed.

Example transfer_message_of_NaN :
  transfer_message sample_digits "SATS" JS.NaN "npub1xyz" = "transfer NaN SATS to npub1xyz".
Proof. reflexivity. Qed.

Example parseInt_no_break_space :
  JS.parseInt (Some (String (ascii_of_nat 194) (String (ascii_of_nat 160) "7")))
  = JS.Finite false 7.
Proof. vm_compute. reflexivity. Qed.

Example to_Number_ties_to_even :
  JS.to_Number false (2 ^ 53 + 1) = JS.Finite false (2 ^ 53)
  /\ JS.to_Number false (2 ^ 53 + 3) = JS.Finite false (2 ^ 53 + 4).
Proof. split; vm_compute; reflexivity. Qed.

Example to_Number_largest_finite :
  JS.to_Number false (2 ^ 1024 - 2 ^ 970 - 1) = JS.Finite false (2 ^ 1024 - 2 ^ 971)
  /\ JS.to_Number false (2 ^ 1024 - 2 ^ 970) = JS.Infinity false.
Proof. split; vm_compute; reflexivity. Qed.

(** The two-line scenario of the specification, on a connected relay. *)
Example two_line_scenario :
  exists event,
    handleTransfer ascii_toUpperCase sample_digits sample_nip19_decode_data
      sample_finalizeEvent (sample_env true None None) (Some sample_relay)
      (Some sample_wallet) sample_tasks []
    = (Return tt,
       [setLoading true; setLoading false;
        relay_publish event None;
        download "receipts.json"
          [{| task := sample_task_1; eventId := Present (id event); error := Absent |};
           {| task := sample_task_2; eventId := Absent; error := Present "不支持的币种" |}];
        setLoading false;
        toast_success "转账成功，交易收据已下载"]).
Proof. eexists. reflexivity. Qed.

(* ------------------------------------------------------------------ *)
(** ** The further statements on concrete runs *)

Lemma parsed_task_count_is_line_feeds_plus_one_witness :
  length [sample_task_1; sample_task_2] = S (count_char LF sample_tasks).
Proof.
  apply (parsed_task_count_is_line_feeds_plus_one ascii_toUpperCase sample_tasks).
  vm_compute. reflexivity.
Defined.

Lemma text_with_an_empty_line_is_rejected_whole_witness :
  handleTransfer ascii_toUpperCase sample_digits sample_nip19_decode_data
    sample_finalizeEvent (sample_env true None None) (Some sample_relay)
    (Some sample_wallet) ("a-sats-1" ++ String LF "") []
  = (Return tt,
     [setLoading true;
      console_error "Parse tasks error: " undefined_token;
      toast_error "转账地址格式错误";
      setLoading false]).
Proof.
  refine (proj1
    (text_with_an_empty_line_is_rejected_whole ascii_toUpperCase sample_digits
       sample_nip19_decode_data sample_finalizeEvent (sample_env true None None)
       (Some sample_relay) sample_wallet "a-sats-1" "b-sats-2" _)).
  discriminate.
Defined.

Lemma text_after_the_amount_digits_is_ignored_witness :
  parse_line ascii_toUpperCase ("addr-sats-100" ++ String (ascii_of_nat 13) "")
  = Return {| address := "addr"; amount := JS.Finite false 100; token := "SATS" |}.
Proof.
  refine (eq_trans
    (text_after_the_amount_digits_is_ignored ascii_toUpperCase
       "addr" "sats" "100" (ascii_of_nat 13) "" eq_refl eq_refl eq_refl eq_refl eq_refl _ _) _).
  - discriminate.
  - discriminate.
  - vm_compute. reflexivity.
Defined.

Lemma parsed_amount_is_never_negative_witness :
  unsigned_number (JS.Finite false 5) = true.
Proof.
  apply (parsed_amount_is_never_negative ascii_toUpperCase "addr-SATS-5"
           {| address := "addr"; amount := JS.Finite false 5; token := "SATS" |}).
  vm_compute. reflexivity.
Defined.

Lemma canonical_amount_is_sent_as_typed_witness :
  exists parsed,
    parse_line ascii_toUpperCase ("addr" ++ "-" ++ "sats" ++ "-" ++ JS.decimal 100)
    = Return parsed
    /\ transfer_message sample_digits (token parsed) (amount parsed) (address parsed)
       = "transfer " ++ JS.decimal 100 ++ " " ++ ascii_toUpperCase "sats" ++ " to " ++ "addr".
Proof.
  apply (canonical_amount_is_sent_as_typed ascii_toUpperCase sample_digits
           "addr" "sats" 100).
  - reflexivity.
  - reflexivity.
  - vm_compute. reflexivity.
Defined.

Lemma without_relay_handle_the_batch_completes_unsent_witness :
  handleTransfer ascii_toUpperCase sample_digits sample_nip19_decode_data
    sample_finalizeEvent (sample_env false None None) None (Some sample_wallet)
    sample_tasks []
  = (Return tt,
     [setLoading true; setLoading false;
      toast_error "请先连接 relay";
      download "receipts.json"
        [{| task := sample_task_1; eventId := Undefined; error := Absent |};
         rejected_receipt sample_task_2];
      setLoading false;
      toast_success "转账成功，交易收据已下载"]).
Proof.
  refine (eq_trans
    (without_relay_handle_the_batch_completes_unsent ascii_toUpperCase sample_digits
       sample_nip19_decode_data sample_finalizeEvent (sample_env false None None)
       sample_wallet sample_tasks [sample_task_1; sample_task_2] _ _) _).
  - discriminate.
  - vm_compute. reflexivity.
  - reflexivity.
Defined.

Lemma batch_without_supported_token_completes_offline_witness :
  handleTransfer ascii_toUpperCase sample_digits sample_nip19_decode_data
    sample_finalizeEvent (sample_env false (Some (Rejection "relay down")) None)
    (Some sample_relay) (Some sample_wallet) ("a-FOO-1" ++ String LF "b-bar-2") []
  = (Return tt,
     [setLoading true; setLoading false;
      download "receipts.json"
        [rejected_receipt {| address := "a"; amount := JS.Finite false 1; token := "FOO" |};
         rejected_receipt {| address := "b"; amount := JS.Finite false 2; token := "BAR" |}];
      setLoading false;
      toast_success "转账成功，交易收据已下载"]).
Proof.
  refine (eq_trans
    (batch_without_supported_token_completes_offline ascii_toUpperCase sample_digits
       sample_nip19_decode_data sample_finalizeEvent
       (sample_env false (Some (Rejection "relay down")) None)
       (Some sample_relay) sample_wallet ("a-FOO-1" ++ String LF "b-bar-2")
       [{| address := "a"; amount := JS.Finite false 1; token := "FOO" |};
        {| address := "b"; amount := JS.Finite false 2; token := "BAR" |}] _ _ _) _).
  - discriminate.
  - vm_compute. reflexivity.
  - repeat constructor.
  - reflexivity.
Defined.

Lemma no_call_on_the_relay_is_repeated_witness :
  let run :=
    handleTransfer ascii_toUpperCase sample_digits sample_nip19_decode_data
      sample_finalizeEvent (sample_env false None None) (Some sample_relay)
      (Some sample_wallet) sample_tasks [] in
  (length (filter is_connect (snd run)) <= 1)%nat
  /\ (length (filter is_publish (snd run)) <= 1)%nat
  /\ length (filter is_rejected_call (snd run)) = (if throws (fst run) then 1 else 0)%nat
  /\ (throws (fst run) = false -> Some sample_relay <> None ->
      length (filter is_publish (snd run)) = 1%nat).
Proof.
  apply (no_call_on_the_relay_is_repeated ascii_toUpperCase sample_digits
           sample_nip19_decode_data sample_finalizeEvent (sample_env false None None)
           (Some sample_relay) sample_wallet sample_tasks [sample_task_1; sample_task_2]).
  - discriminate.
  - vm_compute. reflexivity.
Defined.

Lemma every_published_event_is_for_a_supported_task_witness :
  exists ts t log1,
    parse_tasks ascii_toUpperCase sample_tasks = Return ts
    /\ In t ts
    /\ JS.includes SUPPORTED_TOKENS (token t) = true
    /\ sample_event
       = sample_finalizeEvent
           {| content := nip04_encrypt (sample_env true None None) log1
                           (privateKey sample_wallet)
                           (LNFI_SEND_ADDR sample_nip19_decode_data)
                           ("transfer " ++ JS.Number_toString sample_digits (amount t)
                              ++ " " ++ token t ++ " to " ++ address t);
              tags := [["p"; LNFI_SEND_ADDR sample_nip19_decode_data]; ["r"; "json"]];
              kind := 4;
              created_at := (Date_now (sample_env true None None) log1 / 1000)%Z |}
           (privateKey sample_wallet).
Proof.
  apply (every_published_event_is_for_a_supported_task ascii_toUpperCase sample_digits
           sample_nip19_decode_data sample_finalizeEvent (sample_env true None None)
           (Some sample_relay) sample_wallet sample_tasks sample_event None).
  vm_compute. right. right. left. reflexivity.
Defined.

Lemma relay_is_called_only_with_wallet_handle_and_supported_task_witness :
  exists w r ts,
    Some sample_wallet = Some w /\ nsec w <> "" /\ Some sample_relay = Some r
    /\ parse_tasks ascii_toUpperCase sample_tasks = Return ts
    /\ existsb (fun t => JS.includes SUPPORTED_TOKENS (token t)) ts = true.
Proof.
  apply (relay_is_called_only_with_wallet_handle_and_supported_task ascii_toUpperCase
           sample_digits sample_nip19_decode_data sample_finalizeEvent
           (sample_env true None None) (Some sample_relay) (Some sample_wallet)
           sample_tasks (relay_publish sample_event None)).
  - vm_compute. right. right. left. reflexivity.
  - reflexivity.
Defined.

Lemma loading_flag_is_down_during_the_transfers_witness :
  exists pre rest,
    snd (handleTransfer ascii_toUpperCase sample_digits sample_nip19_decode_data
           sample_finalizeEvent (sample_env true None None) (Some sample_relay)
           (Some sample_wallet) sample_tasks [])
    = (setLoading true :: pre ++ setLoading false :: rest)%list
    /\ Forall (fun a => is_relay_call a = false /\ is_download a = false) pre
    /\ Forall (fun a => a <> setLoading true) rest.
Proof.
  apply (loading_flag_is_down_during_the_transfers ascii_toUpperCase sample_digits
           sample_nip19_decode_data sample_finalizeEvent (sample_env true None None)
           (Some sample_relay) sample_wallet sample_tasks).
  discriminate.
Defined.

Lemma line_without_amount_is_sent_as_NaN_witness :
  handleTransfer ascii_toUpperCase sample_digits sample_nip19_decode_data
    sample_finalizeEvent (sample_env true None None) (Some sample_relay)
    (Some sample_wallet) "npub1xyz-sats" []
  = (Return tt,
     [setLoading true; setLoading false;
      relay_publish
        (sample_finalizeEvent
           {| content := "enc:transfer NaN SATS to npub1xyz";
              tags := [["p"; "693d3f45b81c1f3557383fb955f3a8cb2c194c44ffba1e2f4566e678773b44f8"];
                       ["r"; "json"]];
              kind := 4;
              created_at := 1700000000 |}
           [Byte.x01])
        None;
      download "receipts.json"
        [{| task := {| address := "npub1xyz"; amount := JS.NaN; token := "SATS" |};
            eventId := Present "id:enc:transfer NaN SATS to npub1xyz";
            error := Absent |}];
      setLoading false;
      toast_success "转账成功，交易收据已下载"]).
Proof.
  refine (eq_trans
    (line_without_amount_is_sent_as_NaN ascii_toUpperCase sample_digits
       sample_nip19_decode_data sample_finalizeEvent (sample_env true None None)
       sample_relay sample_wallet "npub1xyz" "sats" _ eq_refl eq_refl eq_refl eq_refl
       eq_refl eq_refl eq_refl) _).
  - discriminate.
  - reflexivity.
Defined.

Lemma rejected_first_connect_leaves_the_batch_unsent_witness :
  session ascii_toUpperCase sample_digits sample_nip19_decode_data sample_finalizeEvent
    (sample_env false (Some (Rejection "relay down")) None)
    string sample_validateMnemonic sample_mnemonicToSeedSync sample_fromSeed
    sample_derivePath sample_node_privateKey sample_nsecEncode sample_getPublicKey
    sample_npubEncode "abandon abandon about" sample_tasks []
  = (Return tt,
     [relay_connect (Some (Rejection "relay down"));
      console_error "Connect relay error: " (Rejection "relay down");
      toast_error "连接 relay 失败";
      toast_success "钱包加载成功";
      setLoading true; setLoading false;
      toast_error "请先连接 relay";
      download "receipts.json"
        [{| task := sample_task_1; eventId := Undefined; error := Absent |};
         rejected_receipt sample_task_2];
      setLoading false;
      toast_success "转账成功，交易收据已下载"]).
Proof.
  refine (eq_trans
    (rejected_first_connect_leaves_the_batch_unsent ascii_toUpperCase sample_digits
       sample_nip19_decode_data sample_finalizeEvent
       (sample_env false (Some (Rejection "relay down")) None)
       string sample_validateMnemonic sample_mnemonicToSeedSync sample_fromSeed
       sample_derivePath sample_node_privateKey sample_nsecEncode sample_getPublicKey
       sample_npubEncode "abandon abandon about" sample_tasks
       [sample_task_1; sample_task_2] (Rejection "relay down")
       [Byte.x02] "m" "m/44'/1237'/0'/0/0" "nsec1sample" "sample-pubkey" "npub1sample"
       eq_refl _ eq_refl eq_refl eq_refl eq_refl eq_refl eq_refl eq_refl _ _) _).
  - discriminate.
  - discriminate.
  - vm_compute. reflexivity.
  - reflexivity.
Defined.

(** A full session on a relay that connects. *)
Example session_on_a_connecting_relay :
  session ascii_toUpperCase sample_digits sample_nip19_decode_data sample_finalizeEvent
    (sample_env true None None)
    string sample_validateMnemonic sample_mnemonicToSeedSync sample_fromSeed
    sample_derivePath sample_node_privateKey sample_nsecEncode sample_getPublicKey
    sample_npubEncode "abandon abandon about" sample_tasks []
  = (Return tt,
     [relay_connect None;
      toast_success "钱包加载成功";
      setLoading true; setLoading false;
      relay_publish sample_event None;
      download "receipts.json"
        [{| task := sample_task_1; eventId := Present (id sample_event); error := Absent |};
         rejected_receipt sample_task_2];
      setLoading false;
      toast_success "转账成功，交易收据已下载"]).
Proof. vm_compute. reflexivity. Qed.

Lemma parsed_address_has_no_hyphen_and_no_line_feed_witness :
  occurs "-" "npub1xyz" = false /\ occurs LF "npub1xyz" = false.
Proof.
  apply (parsed_address_has_no_hyphen_and_no_line_feed ascii_toUpperCase sample_tasks
           [sample_task_1; sample_task_2] sample_task_1).
  - vm_compute. reflexivity.
  - left. reflexivity.
Defined.

Lemma run_throws_only_at_a_rejected_relay_call_witness :
  exists log0 a,
    [setLoading true; setLoading false;
     relay_publish sample_event (Some (Rejection "relay closed"))]
    = (log0 ++ [a])%list
    /\ (a = relay_connect (Some (Rejection "relay closed"))
        \/ exists event, a = relay_publish event (Some (Rejection "relay closed")))
    /\ Forall (fun a' => is_download a' = false)
         [setLoading true; setLoading false;
          relay_publish sample_event (Some (Rejection "relay closed"))].
Proof.
  apply (run_throws_only_at_a_rejected_relay_call ascii_toUpperCase sample_digits
           sample_nip19_decode_data sample_finalizeEvent
           (sample_env true None (Some (Rejection "relay closed")))
           (Some sample_relay) (Some sample_wallet) sample_tasks).
  vm_compute. reflexivity.
Defined.
